(** * Open Agent Trust SDK: the client-side reputation aggregation

    A shallow embedding of [AgentTrustSDK.getWeightedReputation]
    (src/unnamed/part_000, lines 262-311; TypeScript original in
    src/unnamed/part_004) and of the types it uses
    (src/dist/types/index.d.ts), with the properties the specification
    states about it.

    Modelling conventions of the first model.
    - A JavaScript [number] is an exact rational ([Qc], canonical
      fractions with Leibniz equality).  Sums and quotients are therefore
      exact; IEEE-754 rounding, NaN and the infinities are outside this
      model.  The only quotients the code takes have a non-zero
      denominator (lemma [byCategory_groups_nonempty] and the guard on
      [allScores.length]), so the value Rocq gives to [x / 0] is never
      observed.
    - A [bigint] is a [Z].  A [string] stands for the JavaScript string
      whose UTF-16 code units are the codes of its characters, one code
      unit per character and each below 256 ([codeUnits]); strings with a
      code unit from 256 on are outside the model.
    - The two plain objects used as dictionaries ([byCategory] and
      [categoryScores]) are finite maps [gmap string _].  Every key the
      code writes has the shape [namespace:tag] and so contains a colon:
      it is neither an array index nor a property inherited from
      [Object.prototype], hence [obj[key]] reads exactly what the code
      stored under [key].
    - [await] on a contract read either yields a value or rejects; a
      method is a function from the SDK object to an outcome and the SDK
      object after the call.

    The second model ([Numeric]) is the same code over an arithmetic given
    as a parameter, with the two plain objects as lists of properties in
    insertion order, the order [Object.entries] and [Object.values]
    enumerate.  Its instance [Numeric.binary64] is the arithmetic of the
    code: IEEE-754 doubles, every sum and quotient rounded.  Its instance
    [Numeric.exact] is the first model (lemma [exact_report]).  What is
    proved of the first model holds of the code up to rounding only; the
    last part of the file says which properties survive rounding and which
    do not. *)

From Stdlib Require Import QArith Qcanon ZArith Ascii String List.
From Stdlib Require Import PrimFloat Uint63 SpecFloat FloatOps FloatAxioms.
From stdpp Require Import base numbers option list strings gmap fin_maps.

Local Open Scope string_scope.
Local Open Scope list_scope.
Local Open Scope nat_scope.

(** ** Data model (src/dist/types/index.d.ts) *)

Record Attestation := mkAttestation {
  fromAgent : Z;
  toAgent : Z;
  namespace : string;
  tag : string;
  score : Qc;
  interactionId : string;
  comment : string;
  timestamp : Z;
}.

Module Query.
(** [WeightedReputationQuery]: every field is optional. *)
Record t := mk {
  viewerAgentId : option Z;
  namespace : option string;
  tag : option string;
}.
End Query.

Inductive RiskLevel := low | medium | high | critical.

Record WeightedReputation := mkWeightedReputation {
  overall : Qc;
  byCategory : gmap string Qc;
  decayFactor : Qc;
  riskLevel : RiskLevel;
  suspicionScore : Qc;
  totalAttestations : nat;
}.

Global Instance RiskLevel_eq_dec : EqDecision RiskLevel.
Proof. solve_decision. Defined.

(** ** JavaScript helpers *)

(** [query?.namespace] and [query?.tag]: [undefined] when the query itself
    is absent. *)
Definition optChain {A} (query : option Query.t) (field : Query.t → option A)
  : option A :=
  match query with
  | Some q => field q
  | None => None
  end.

(** Truthiness of an optional string: [undefined] and the empty string are
    falsy. *)
Definition truthy (s : option string) : bool :=
  match s with
  | Some EmptyString => false
  | Some _ => true
  | None => false
  end.

(** [scores.reduce((a, b) => a + b, 0)] *)
Definition reduceSum (scores : list Qc) : Qc := foldl Qcplus 0%Qc scores.

(** [scores.length] as a number. *)
Definition lengthNum {A} (l : list A) : Qc := Qc_of_Z (Z.of_nat (length l)).

(** [scores.reduce((a, b) => a + b, 0) / scores.length] *)
Definition average (scores : list Qc) : Qc :=
  (reduceSum scores / lengthNum scores)%Qc.

(** ** The body of [getWeightedReputation], one definition per local *)

Module Aggregate.

(** [if (cond) l = l.filter(a => field(a) === cond)] *)
Definition filterStep (field : Attestation → string) (cond : option string)
    (l : list Attestation) : list Attestation :=
  match cond with
  | Some wanted =>
      if truthy cond then filter (λ a, field a = wanted) l else l
  | None => l
  end.

(** Lines 268-274. *)
Definition filteredAttestations (attestations : list Attestation)
    (query : option Query.t) : list Attestation :=
  let filteredAttestations := attestations in
  let filteredAttestations :=
    filterStep namespace (optChain query Query.namespace) filteredAttestations in
  let filteredAttestations :=
    filterStep tag (optChain query Query.tag) filteredAttestations in
  filteredAttestations.

(** [`${att.namespace}:${att.tag}`] *)
Definition key (att : Attestation) : string :=
  namespace att +:+ ":" +:+ tag att.

(** One iteration of the grouping loop, lines 278-281. *)
Definition groupStep (byCategory : gmap string (list Qc)) (att : Attestation)
    : gmap string (list Qc) :=
  let key := key att in
  let byCategory :=
    match byCategory !! key with
    | None => <[key := []]> byCategory
    | Some _ => byCategory
    end in
  alter (λ scores, scores ++ [score att]) key byCategory.

(** Lines 276-282. *)
Definition byCategory (filteredAttestations : list Attestation)
    : gmap string (list Qc) :=
  foldl groupStep ∅ filteredAttestations.

(** Lines 284-287. *)
Definition categoryScores (byCategory : gmap string (list Qc))
    : gmap string Qc :=
  average <$> byCategory.

(** [Object.values(categoryScores)].  JavaScript lists the values in the
    order the keys were inserted, the map in an order of its own; the only
    use of the list is its sum and its length, which in exact arithmetic do
    not depend on the order (lemma [report_overall_enumeration]).  The
    order of insertion is kept in [Numeric.allScores]. *)
Definition allScores (categoryScores : gmap string Qc) : list Qc :=
  (map_to_list categoryScores).*2.

(** Line 290. *)
Definition overall (allScores : list Qc) : Qc :=
  if (0 <? length allScores)%nat
  then (reduceSum allScores / lengthNum allScores)%Qc
  else 0%Qc.

(** Line 292. *)
Definition decayFactor : Qc := Q2Qc (98 # 100).

(** Lines 294-302. *)
Definition riskLevel (attestations : list Attestation) : RiskLevel :=
  if (20 <? length attestations)%nat then low
  else if (10 <? length attestations)%nat then medium
  else if (5 <? length attestations)%nat then high
  else critical.

End Aggregate.

(** Lines 267-310: everything after the attestations have been resolved. *)
Definition weightedReputationOf (attestations : list Attestation)
    (query : option Query.t) : WeightedReputation :=
  let filteredAttestations := Aggregate.filteredAttestations attestations query in
  let byCategory := Aggregate.byCategory filteredAttestations in
  let categoryScores := Aggregate.categoryScores byCategory in
  let allScores := Aggregate.allScores categoryScores in
  let overall := Aggregate.overall allScores in
  let decayFactor := Aggregate.decayFactor in
  let riskLevel := Aggregate.riskLevel attestations in
  {| overall := overall;
     byCategory := categoryScores;
     decayFactor := decayFactor;
     riskLevel := riskLevel;
     suspicionScore := 0%Qc;
     totalAttestations := length attestations |}.

(** ** The SDK object and its asynchronous methods *)

(** The read side of the trust-graph contract binding: a call resolves to a
    value or rejects ([None]). *)
Record TrustGraph := mkTrustGraph {
  tg_getAttestations : Z → option (list string);
  tg_getAttestation : string → option Attestation;
}.

(** The fields of the SDK object a method can reach: the contract binding
    and the signer (absent for a read-only SDK) with the nonce its manager
    tracks. *)
Record AgentTrustSDK := mkSDK {
  trustGraph : TrustGraph;
  signer : option Z;
  nonce : nat;
}.

Inductive Outcome (A : Type) :=
| Fulfilled (a : A)
| Rejected.
Arguments Fulfilled {A} a.
Arguments Rejected {A}.

(** An [async] method: from the SDK object to the settled promise and the
    object afterwards. *)
Definition Async (A : Type) : Type := AgentTrustSDK → Outcome A * AgentTrustSDK.

Definition aret {A} (a : A) : Async A := λ this, (Fulfilled a, this).

Definition abind {A B} (m : Async A) (k : A → Async B) : Async B :=
  λ this,
    match m this with
    | (Fulfilled a, this') => k a this'
    | (Rejected, this') => (Rejected, this')
    end.

Notation "'await' x ← m ; k" := (abind m (λ x, k))
  (at level 100, x name, m at next level, k at level 200, right associativity,
   format "'[v' 'await'  x  ←  m ; '/' k ']'").

(** A contract read leaves the SDK object as it is. *)
Definition contractRead {A} (call : TrustGraph → option A) : Async A :=
  λ this,
    match call (trustGraph this) with
    | Some a => (Fulfilled a, this)
    | None => (Rejected, this)
    end.

(** [Promise.all(ids.map(f))]: the results in the order of [ids]; rejects as
    soon as one of them rejects. *)
Fixpoint promiseAll {A B} (f : A → Async B) (ids : list A) : Async (list B) :=
  match ids with
  | [] => aret []
  | id :: ids =>
      await b ← f id;
      await bs ← promiseAll f ids;
      aret (b :: bs)
  end.

(** Lines 243-245. *)
Definition getAttestations (agentId : Z) : Async (list string) :=
  contractRead (λ tg, tg_getAttestations tg agentId).

(** Lines 227-239: the record returned by the contract, field by field.
    The score is taken to be a [number], as the type [Attestation] declares
    it; a contract binding that returns it as a [bigint] is outside the
    model (the sum of line 286 throws on a [bigint]). *)
Definition getAttestation (attestationId : string) : Async Attestation :=
  await attestation ← contractRead (λ tg, tg_getAttestation tg attestationId);
  aret {| fromAgent := fromAgent attestation;
          toAgent := toAgent attestation;
          namespace := namespace attestation;
          tag := tag attestation;
          score := score attestation;
          interactionId := interactionId attestation;
          comment := comment attestation;
          timestamp := timestamp attestation |}.

(** Lines 262-311. *)
Definition getWeightedReputation (agentId : Z) (query : option Query.t)
    : Async WeightedReputation :=
  await attestationIds ← getAttestations agentId;
  await attestations ← promiseAll getAttestation attestationIds;
  aret (weightedReputationOf attestations query).

(** ** Notions used to state the properties *)

(** The sum of a list of numbers, by structural recursion. *)
Definition sumList (l : list Qc) : Qc := foldr Qcplus 0%Qc l.

(** The arithmetic mean as the specification understands it: the sum of
    the elements divided by their count. *)
Definition arithmeticMean (l : list Qc) : Qc :=
  (sumList l / Qc_of_Z (Z.of_nat (length l)))%Qc.

(** The mean of a list of group means, 0 when there is none. *)
Definition meanOrZero (l : list Qc) : Qc :=
  match l with
  | [] => 0%Qc
  | _ => arithmeticMean l
  end.

(** The scores of the attestations of [l] whose key is [k], in the order of
    [l]. *)
Definition keyGroup (k : string) (l : list Attestation) : list Qc :=
  score <$> filter (λ a, Aggregate.key a = k) l.




(** [s.includes(":")] *)
Fixpoint hasColon (s : string) : bool :=
  match s with
  | EmptyString => false
  | String c s => if Ascii.eqb c ":"%char then true else hasColon s
  end.


(** What one filter step keeps: everything when the condition is falsy,
    the attestations whose field is the condition otherwise. *)
Definition keeps (cond : option string) (s : string) : Prop :=
  if truthy cond then cond = Some s else True.

Global Instance keeps_dec cond s : Decision (keeps cond s).
Proof. unfold keeps. destruct (truthy cond); apply _. Defined.

(** An attestation survives the query when both steps keep it. *)
Definition survives (query : option Query.t) (a : Attestation) : Prop :=
  keeps (optChain query Query.namespace) (namespace a) ∧
  keeps (optChain query Query.tag) (tag a).

(** The contract resolves [agentId] to the list [attestations]: the call
    for the identifiers fulfils, and so does the call for each of them. *)
Definition resolves (this : AgentTrustSDK) (agentId : Z)
    (attestations : list Attestation) : Prop :=
  ∃ attestationIds,
    tg_getAttestations (trustGraph this) agentId = Some attestationIds ∧
    Forall2 (λ id a, tg_getAttestation (trustGraph this) id = Some a)
      attestationIds attestations.

(** Every list of attestations is what some contract state resolves an
    agent to: the identifier of the attestation at position [i] is the
    string of [i] ones. *)
Fixpoint unary (i : nat) : string :=
  match i with
  | 0 => ""
  | S i => String "1" (unary i)
  end.

Definition ledgerOf (attestations : list Attestation) : AgentTrustSDK :=
  {| trustGraph :=
       {| tg_getAttestations := λ _, Some (unary <$> seq 0 (length attestations));
          tg_getAttestation := λ id, attestations !! String.length id |};
     signer := None;
     nonce := 0 |}.

(** The report on no attestation at all. *)
Definition emptyReport : WeightedReputation :=
  {| overall := 0%Qc;
     byCategory := ∅;
     decayFactor := Q2Qc (98 # 100);
     riskLevel := critical;
     suspicionScore := 0%Qc;
     totalAttestations := 0 |}.

(** ** Concrete data used in the examples *)

(** An attestation with the given namespace, tag and integer score. *)
Definition att (ns tg : string) (s : Z) : Attestation :=
  {| fromAgent := 1; toAgent := 2; namespace := ns; tag := tg;
     score := Qc_of_Z s; interactionId := "0x01"; comment := "";
     timestamp := 0 |}.

(** The example of section 8 of the specification. *)
Definition specExample : list Attestation :=
  [att "a" "x" 80; att "a" "x" 100; att "a" "y" 50].


(** The query [{namespace: "a", tag: "x"}], which removes the third
    attestation of [specExample]. *)
Definition queryAX : option Query.t :=
  Some {| Query.viewerAgentId := None;
          Query.namespace := Some "a";
          Query.tag := Some "x" |}.

(** A signing SDK, with a nonce already used, bound to the same contract
    state as [ledgerOf specExample]. *)
Definition signingSDK : AgentTrustSDK :=
  {| trustGraph := trustGraph (ledgerOf specExample);
     signer := Some 5%Z;
     nonce := 3 |}.

(** ** The write side of the SDK

    The methods that send a transaction depend on code outside the
    repository: the ethers library and the deployed contracts.  What they
    do is taken as a parameter; the guards, the marshalling of the
    arguments and the reading of the receipt are the code's own. *)

(** [receipt.logs[i].topics] *)
Record Log := mkLog {
  topics : list string;
}.

Record TransactionReceipt := mkReceipt {
  logs : list Log;
  hash : string;
}.

Inductive Contract := InteractionRegistry | SchemaRegistry | TrustGraphContract.

(** A state-changing contract method with its arguments, in the order the
    code passes them. *)
Inductive ContractCall :=
| CallRegisterInteraction (agentA agentB : Z) (hashBytes32 interactionType : string)
| CallRegisterSchema (ns name description : string) (allowedTags : list string)
    (minScore maxScore : Qc)
| CallSetTrust (to : Z) (trustLevel : Qc)
| CallRemoveTrust (to : Z)
| CallSubmitAttestation (to : Z) (ns tg : string) (s : Qc)
    (interaction commentText : string).

Record Ethers := mkEthers {
  (** [ethers.keccak256(ethers.toUtf8Bytes(s))] *)
  keccak256Utf8 : string → string;
  (** [const tx = await contract.method(args); await tx.wait()]: the
      receipt, or a rejection, and the SDK object afterwards. *)
  sendAndWait : ContractCall → AgentTrustSDK →
                option TransactionReceipt * AgentTrustSDK;
  (** [contract.interface.getEvent(name)]: the topic hash of the event
      fragment, if the ABI has the event. *)
  getEvent : Contract → string → option string;
  (** [new ethers.Wallet(privateKey, provider)]: the address of the wallet
      as a number, or an exception for a malformed key. *)
  walletOf : string → option Z;
  (** [new ethers.Contract(address, abi, runner)] for the trust graph. *)
  connectTrustGraph : string → string → TrustGraph;
}.

(** What a method can end with: a value, an [Error] the code throws itself,
    or the rejection of a call it awaits. *)
Inductive Thrown :=
| Error (message : string)
| CallException.

Inductive Settled (A : Type) :=
| Returned (a : A)
| Threw (e : Thrown).
Arguments Returned {A} a.
Arguments Threw {A} e.

Definition Method (A : Type) : Type := AgentTrustSDK → Settled A * AgentTrustSDK.

Definition mreturn {A} (a : A) : Method A := λ this, (Returned a, this).

Definition throw {A} (e : Thrown) : Method A := λ this, (Threw e, this).

Definition mthen {A B} (m : Method A) (k : A → Method B) : Method B :=
  λ this,
    match m this with
    | (Returned a, this') => k a this'
    | (Threw e, this') => (Threw e, this')
    end.

Notation "'step' x ← m ; k" := (mthen m (λ x, k))
  (at level 100, x name, m at next level, k at level 200, right associativity,
   format "'[v' 'step'  x  ←  m ; '/' k ']'").

(** [if (!this.signer) throw new Error(message)] *)
Definition requireSigner (message : string) : Method Z :=
  λ this,
    match signer this with
    | Some address => (Returned address, this)
    | None => (Threw (Error message), this)
    end.

(** [await contract.method(args)] followed by [await tx.wait()]. *)
Definition transact (eth : Ethers) (call : ContractCall)
    : Method TransactionReceipt :=
  λ this,
    match sendAndWait eth call this with
    | (Some receipt, this') => (Returned receipt, this')
    | (None, this') => (Threw CallException, this')
    end.

(** Lines 318-323.  The signer is held as the number its address denotes,
    so [BigInt(address)] is that number. *)
Definition getAgentId : Method Z := requireSigner "Signer required".

(** Lines 92-98: the value of the local [hashBytes32].  With one code unit
    per character, [String.length] is [.length] and [String.prefix] is
    [startsWith] (lemma [bytes32Shaped_codeUnits]). *)
Definition hashBytes32 (eth : Ethers) (interactionHash : string) : string :=
  if String.prefix "0x" interactionHash && (String.length interactionHash =? 66)
  then interactionHash
  else keccak256Utf8 eth interactionHash.

(** [receipt.logs.find((log) => log.topics[0] === topicHash)] *)
Definition findEvent (topicHash : string) (receipt : TransactionReceipt)
    : option Log :=
  find (λ log, bool_decide (topics log !! 0 = Some topicHash)) (logs receipt).

(** [event?.topics[1] || ''] *)
Definition secondTopic (event : option Log) : string :=
  match event with
  | Some log => default "" (topics log !! 1)
  | None => ""
  end.

Record RegisterInteractionParams := mkRegisterInteractionParams {
  ri_agentB : Z;
  ri_interactionHash : string;
  ri_interactionType : string;
}.

Record RegisteredInteraction := mkRegisteredInteraction {
  ri_interactionId : string;
  ri_txHash : string;
}.

(** Lines 84-106. *)
Definition registerInteraction (eth : Ethers) (params : RegisterInteractionParams)
    : Method RegisteredInteraction :=
  step _ ← requireSigner "Signer required for write operations";
  step agentA ← getAgentId;
  let hashBytes32 := hashBytes32 eth (ri_interactionHash params) in
  step receipt ← transact eth
    (CallRegisterInteraction agentA (ri_agentB params) hashBytes32
       (ri_interactionType params));
  match getEvent eth InteractionRegistry "InteractionRegistered" with
  | None => throw (Error "InteractionRegistered event not found")
  | Some topicHash =>
      let event := findEvent topicHash receipt in
      mreturn {| ri_interactionId := secondTopic event;
                 ri_txHash := hash receipt |}
  end.

Record RegisterSchemaParams := mkRegisterSchemaParams {
  rs_namespace : string;
  rs_name : string;
  rs_description : string;
  rs_allowedTags : list string;
  rs_minScore : Qc;
  rs_maxScore : Qc;
}.

(** Lines 139-149. *)
Definition registerSchema (eth : Ethers) (params : RegisterSchemaParams)
    : Method string :=
  step _ ← requireSigner "Signer required for write operations";
  step receipt ← transact eth
    (CallRegisterSchema (rs_namespace params) (rs_name params)
       (rs_description params) (rs_allowedTags params)
       (rs_minScore params) (rs_maxScore params));
  match getEvent eth SchemaRegistry "SchemaRegistered" with
  | None => throw (Error "SchemaRegistered event not found")
  | Some topicHash =>
      let event := findEvent topicHash receipt in
      mreturn (secondTopic event)
  end.

Record SetTrustParams := mkSetTrustParams {
  st_toAgent : Z;
  st_trustLevel : Qc;
}.

(** Lines 180-187. *)
Definition setTrust (eth : Ethers) (params : SetTrustParams) : Method string :=
  step _ ← requireSigner "Signer required for write operations";
  step receipt ← transact eth
    (CallSetTrust (st_toAgent params) (st_trustLevel params));
  mreturn (hash receipt).

(** Lines 192-199. *)
Definition removeTrust (eth : Ethers) (toAgent : Z) : Method string :=
  step _ ← requireSigner "Signer required for write operations";
  step receipt ← transact eth (CallRemoveTrust toAgent);
  mreturn (hash receipt).

Record SubmitAttestationParams := mkSubmitAttestationParams {
  sa_toAgent : Z;
  sa_namespace : string;
  sa_tag : string;
  sa_score : Qc;
  sa_interactionId : string;
  sa_comment : option string;
}.

(** Lines 204-211; [params.comment || ''] is the comment, or the empty
    string when it is absent. *)
Definition submitAttestation (eth : Ethers) (params : SubmitAttestationParams)
    : Method string :=
  step _ ← requireSigner "Signer required for write operations";
  step receipt ← transact eth
    (CallSubmitAttestation (sa_toAgent params) (sa_namespace params)
       (sa_tag params) (sa_score params) (sa_interactionId params)
       (default "" (sa_comment params)));
  mreturn (hash receipt).

Record SDKConfig := mkSDKConfig {
  rpcUrl : string;
  privateKey : option string;
  trustGraphAddress : string;
}.

(** Lines 62-76, for the fields of the SDK object the model keeps.  The
    wallet is created only for a truthy private key; a fresh nonce manager
    has counted no transaction. *)
Definition construct (eth : Ethers) (config : SDKConfig) : option AgentTrustSDK :=
  let binding := connectTrustGraph eth (rpcUrl config) (trustGraphAddress config) in
  if truthy (privateKey config)
  then
    match privateKey config with
    | Some key =>
        match walletOf eth key with
        | Some address =>
            Some {| trustGraph := binding; signer := Some address; nonce := 0 |}
        | None => None
        end
    | None => None
    end
  else Some {| trustGraph := binding; signer := None; nonce := 0 |}.

(** ** Notions used to state the further properties *)

(** The risk levels, from the least to the most severe. *)
Definition riskRank (level : RiskLevel) : nat :=
  match level with
  | low => 0
  | medium => 1
  | high => 2
  | critical => 3
  end.

(** What the code reads of a query: the namespace and the tag it filters
    by, when they are truthy. *)
Definition effectiveFilter (cond : option string) : option string :=
  if truthy cond then cond else None.

Definition effectiveQuery (query : option Query.t)
    : option string * option string :=
  (effectiveFilter (optChain query Query.namespace),
   effectiveFilter (optChain query Query.tag)).

(** The property names every plain object inherits from
    [Object.prototype]. *)
Definition prototypeNames : list string :=
  ["constructor"; "__proto__"; "hasOwnProperty"; "isPrototypeOf";
   "propertyIsEnumerable"; "toLocaleString"; "toString"; "valueOf";
   "__defineGetter__"; "__defineSetter__"; "__lookupGetter__";
   "__lookupSetter__"].

(** The shape of a 32-byte value written in hexadecimal: [0x] and 64 more
    characters. *)
Definition bytes32Shaped (s : string) : Prop :=
  String.prefix "0x" s = true ∧ String.length s = 66.

(** The UTF-16 code units of the JavaScript string a [string] stands for. *)
Definition codeUnits (s : string) : list N :=
  N_of_ascii <$> list_ascii_of_string s.

(** [s.startsWith(searchString)], on code units. *)
Fixpoint startsWith (s searchString : list N) {struct searchString} : bool :=
  match searchString, s with
  | [], _ => true
  | c :: searchString, d :: s => (d =? c)%N && startsWith s searchString
  | _ :: _, [] => false
  end.

(** A contract state that lists one attestation and cannot read it. *)
Definition unreadableLedger : AgentTrustSDK :=
  {| trustGraph := {| tg_getAttestations := λ _, Some ["0x01"];
                      tg_getAttestation := λ _, None |};
     signer := None;
     nonce := 0 |}.

(** How a write method ends on an SDK object without a signer. *)
Definition refused {A} : Settled A :=
  Threw (Error "Signer required for write operations").

(** A receipt with a log of another event and two logs of the event
    ["0xevent"]. *)
Definition sampleReceipt : TransactionReceipt :=
  {| logs := [ {| topics := ["0xother"; "0xaa"] |};
               {| topics := ["0xevent"; "0x01"] |};
               {| topics := ["0xevent"; "0x02"] |} ];
     hash := "0xtx" |}.

(** The digest of 32 zero bytes, written in hexadecimal. *)
Definition zeroDigest : string :=
  "0x0000000000000000000000000000000000000000000000000000000000000000".

(** An environment in which every transaction is mined with
    [sampleReceipt] and uses one nonce, every digest is [zeroDigest], the
    ABIs know every event, and every key is the key of agent 5. *)
Definition sampleEthers : Ethers :=
  {| keccak256Utf8 := λ _, zeroDigest;
     sendAndWait := λ _ this,
       (Some sampleReceipt,
        {| trustGraph := trustGraph this;
           signer := signer this;
           nonce := S (nonce this) |});
     getEvent := λ _ _, Some "0xevent";
     walletOf := λ _, Some 5%Z;
     connectTrustGraph := λ _ _, trustGraph (ledgerOf specExample) |}.

(** The same environment with ABIs that know no event. *)
Definition eventlessEthers : Ethers :=
  {| keccak256Utf8 := keccak256Utf8 sampleEthers;
     sendAndWait := sendAndWait sampleEthers;
     getEvent := λ _ _, None;
     walletOf := walletOf sampleEthers;
     connectTrustGraph := connectTrustGraph sampleEthers |}.

Definition sampleInteraction : RegisterInteractionParams :=
  {| ri_agentB := 9%Z;
     ri_interactionHash := "ipfs://QmInteraction";
     ri_interactionType := "service_delivery" |}.

(** ** The same code over any arithmetic, objects in insertion order

    The definitions above take the sums and the quotients exactly and keep
    the two dictionaries as finite maps.  The module below is the body of
    [getWeightedReputation] once more, with the arithmetic as a parameter
    and a plain object as the list of its own properties in the order they
    were created, which is the order [Object.entries] and [Object.values]
    follow.  At [binary64] the numbers are IEEE-754 doubles, as in
    JavaScript; at [exact] they are the rationals of the definitions
    above. *)

Module Numeric.

Record Numbers := mkNumbers {
  num : Type;
  (** the literal [0] *)
  zero : num;
  (** [a + b] *)
  plus : num → num → num;
  (** [a / b] *)
  quot : num → num → num;
  (** [array.length] as a number *)
  ofLength : nat → num;
  (** the literal [0.98] *)
  decay : num;
}.

(** IEEE-754 binary64 with rounding to nearest, ties to even.  The literal
    is the double nearest to 0.98; a length below 2^53 converts exactly. *)
Definition binary64 : Numbers :=
  {| num := float;
     zero := 0%float;
     plus := PrimFloat.add;
     quot := PrimFloat.div;
     ofLength := λ n, PrimFloat.of_uint63 (Uint63.of_Z (Z.of_nat n));
     decay := 0x1.f5c28f5c28f5cp-1%float |}.

(** Rationals, nothing rounded. *)
Definition exact : Numbers :=
  {| num := Qc;
     zero := 0%Qc;
     plus := Qcplus;
     quot := Qcdiv;
     ofLength := λ n, Qc_of_Z (Z.of_nat n);
     decay := Q2Qc (98 # 100) |}.

Record Attestation (N : Numbers) := mkAttestation {
  fromAgent : Z;
  toAgent : Z;
  namespace : string;
  tag : string;
  score : num N;
  interactionId : string;
  comment : string;
  timestamp : Z;
}.
Arguments mkAttestation {N}.
Arguments fromAgent {N}.
Arguments toAgent {N}.
Arguments namespace {N}.
Arguments tag {N}.
Arguments score {N}.
Arguments interactionId {N}.
Arguments comment {N}.
Arguments timestamp {N}.

Record WeightedReputation (N : Numbers) := mkWeightedReputation {
  overall : num N;
  byCategory : list (string * num N);
  decayFactor : num N;
  riskLevel : RiskLevel;
  suspicionScore : num N;
  totalAttestations : nat;
}.
Arguments mkWeightedReputation {N}.
Arguments overall {N}.
Arguments byCategory {N}.
Arguments decayFactor {N}.
Arguments riskLevel {N}.
Arguments suspicionScore {N}.
Arguments totalAttestations {N}.

(** [obj[key]] on an object whose keys are not inherited names. *)
Fixpoint getProperty {V} (key : string) (obj : list (string * V)) : option V :=
  match obj with
  | [] => None
  | (k, v) :: obj => if decide (k = key) then Some v else getProperty key obj
  end.

(** [obj[key] = v]: an existing property keeps its place, a new one goes
    last. *)
Fixpoint setProperty {V} (key : string) (v : V) (obj : list (string * V))
    : list (string * V) :=
  match obj with
  | [] => [(key, v)]
  | (k, w) :: obj =>
      if decide (k = key) then (k, v) :: obj else (k, w) :: setProperty key v obj
  end.

Section Code.
Context {N : Numbers}.

(** [scores.reduce((a, b) => a + b, 0)] *)
Definition reduceSum (scores : list (num N)) : num N :=
  foldl (plus N) (zero N) scores.

(** [scores.reduce((a, b) => a + b, 0) / scores.length] *)
Definition average (scores : list (num N)) : num N :=
  quot N (reduceSum scores) (ofLength N (length scores)).

(** [if (cond) l = l.filter(a => field(a) === cond)] *)
Definition filterStep (field : Attestation N → string) (cond : option string)
    (l : list (Attestation N)) : list (Attestation N) :=
  match cond with
  | Some wanted =>
      if truthy cond then filter (λ a, field a = wanted) l else l
  | None => l
  end.

(** Lines 268-274. *)
Definition filteredAttestations (attestations : list (Attestation N))
    (query : option Query.t) : list (Attestation N) :=
  let filteredAttestations := attestations in
  let filteredAttestations :=
    filterStep namespace (optChain query Query.namespace) filteredAttestations in
  let filteredAttestations :=
    filterStep tag (optChain query Query.tag) filteredAttestations in
  filteredAttestations.

(** [`${att.namespace}:${att.tag}`] *)
Definition key (att : Attestation N) : string :=
  namespace att +:+ ":" +:+ tag att.

(** One iteration of the grouping loop, lines 278-281; [push] changes the
    array the property holds and leaves the property where it is. *)
Definition groupStep (byCategory : list (string * list (num N)))
    (att : Attestation N) : list (string * list (num N)) :=
  let key := key att in
  let byCategory :=
    match getProperty key byCategory with
    | None => setProperty key [] byCategory
    | Some _ => byCategory
    end in
  match getProperty key byCategory with
  | Some scores => setProperty key (scores ++ [score att]) byCategory
  | None => byCategory
  end.

(** Lines 276-282. *)
Definition groups (filteredAttestations : list (Attestation N))
    : list (string * list (num N)) :=
  foldl groupStep [] filteredAttestations.

(** Lines 284-287, over [Object.entries(byCategory)]. *)
Definition categoryScores (byCategory : list (string * list (num N)))
    : list (string * num N) :=
  foldl (λ categoryScores entry,
           setProperty entry.1 (average entry.2) categoryScores)
    [] byCategory.

(** [Object.values(categoryScores)] *)
Definition allScores (categoryScores : list (string * num N)) : list (num N) :=
  categoryScores.*2.

(** Line 290. *)
Definition overallOf (allScores : list (num N)) : num N :=
  if 0 <? length allScores
  then quot N (reduceSum allScores) (ofLength N (length allScores))
  else zero N.

(** Lines 294-302. *)
Definition riskLevelOf (attestations : list (Attestation N)) : RiskLevel :=
  if 20 <? length attestations then low
  else if 10 <? length attestations then medium
  else if 5 <? length attestations then high
  else critical.

(** Lines 267-310. *)
Definition weightedReputationOf (attestations : list (Attestation N))
    (query : option Query.t) : WeightedReputation N :=
  let filteredAttestations := filteredAttestations attestations query in
  let byCategory := groups filteredAttestations in
  let categoryScores := categoryScores byCategory in
  let allScores := allScores categoryScores in
  let overall := overallOf allScores in
  let decayFactor := decay N in
  let riskLevel := riskLevelOf attestations in
  {| overall := overall;
     byCategory := categoryScores;
     decayFactor := decayFactor;
     riskLevel := riskLevel;
     suspicionScore := zero N;
     totalAttestations := length attestations |}.

(** The scores of the attestations of [l] whose key is [k], in the order of
    [l]. *)
Definition keyGroup (k : string) (l : list (Attestation N)) : list (num N) :=
  score <$> filter (λ a, key a = k) l.

End Code.

(** The keys of a list in the order of their first occurrence. *)
Fixpoint firstOccurrences (keys : list string) : list string :=
  match keys with
  | [] => []
  | k :: keys => k :: filter (λ k', k' ≠ k) (firstOccurrences keys)
  end.

End Numeric.

(** An attestation in exact arithmetic is an attestation of the first
    model. *)
Definition typed (a : Numeric.Attestation Numeric.exact) : Attestation :=
  {| fromAgent := Numeric.fromAgent a;
     toAgent := Numeric.toAgent a;
     namespace := Numeric.namespace a;
     tag := Numeric.tag a;
     score := Numeric.score a;
     interactionId := Numeric.interactionId a;
     comment := Numeric.comment a;
     timestamp := Numeric.timestamp a |}.

(** An attestation with the given namespace, tag and double score. *)
Definition att64 (ns tg : string) (s : float)
    : Numeric.Attestation Numeric.binary64 :=
  Numeric.mkAttestation (N := Numeric.binary64) 1 2 ns tg s "0x01" "" 0.

(** An attestation with the given namespace, tag and integer score, in
    exact arithmetic. *)
Definition attQ (ns tg : string) (s : Z) : Numeric.Attestation Numeric.exact :=
  Numeric.mkAttestation (N := Numeric.exact) 1 2 ns tg (Qc_of_Z s) "0x01" "" 0.

(** Three categories, each with the scores 1, 0, 0, 0, 0. *)
Definition threeFifths : list (Numeric.Attestation Numeric.binary64) :=
  let five := λ tg, att64 "a" tg 1 :: replicate 4 (att64 "a" tg 0) in
  five "x" ++ five "y" ++ five "z".

(** Three categories with the means 1, 1 and 1/3, and the same
    attestations with the third category first. *)
Definition thirdLast : list (Numeric.Attestation Numeric.binary64) :=
  [att64 "a" "x" 1; att64 "a" "y" 1;
   att64 "a" "z" 1; att64 "a" "z" 0; att64 "a" "z" 0].

Definition thirdFirst : list (Numeric.Attestation Numeric.binary64) :=
  [att64 "a" "z" 1; att64 "a" "z" 0; att64 "a" "z" 0;
   att64 "a" "x" 1; att64 "a" "y" 1].

(** The double nearest to 0.1. *)
Definition tenth : float := 0x1.999999999999ap-4%float.

(** Three attestations of one category with the score [tenth]. *)
Definition threeTenths : list (Numeric.Attestation Numeric.binary64) :=
  replicate 3 (att64 "a" "x" tenth).

(** 2^53 + 4, a double. *)
Definition large : float := 0x1.0000000000002p+53%float.

(** Six attestations of one category with the score [large]. *)
Definition sixLarge : list (Numeric.Attestation Numeric.binary64) :=
  replicate 6 (att64 "a" "x" large).

(** The double nearest to 0.2, which is the mean of 1, 0, 0, 0, 0 in
    binary64. *)
Definition fifth : float := 0x1.999999999999ap-3%float.

(** One category with the scores 97, 15.4 and 40.4 (the nearest
    doubles). *)
Definition fractional : list (Numeric.Attestation Numeric.binary64) :=
  [att64 "a" "x" 97; att64 "a" "x" 0x1.ecccccccccccdp+3;
   att64 "a" "x" 0x1.4333333333333p+5].

(** Three categories of exact scores, of means 90, 50 and 20. *)
Definition exactExample : list (Numeric.Attestation Numeric.exact) :=
  [attQ "a" "x" 80; attQ "a" "y" 50; attQ "a" "x" 100; attQ "b" "z" 20].

(** The order of doubles: [a <= b]. *)
Definition le64 (a b : float) : Prop := PrimFloat.leb a b = true.

(** A double that is not NaN and not below zero, by its sign: a zero of
    either sign, a finite double with the sign bit clear, or [+Infinity]. *)
Definition nonnegative (x : spec_float) : Prop :=
  match x with
  | S754_zero _ => True
  | S754_infinity s | S754_finite s _ _ => s = false
  | S754_nan => False
  end.

(** A double that is finite and above zero. *)
Definition positiveFinite (x : spec_float) : Prop :=
  match x with
  | S754_finite false _ _ => True
  | _ => False
  end.

(** ** Three properties of a report, over any arithmetic and order *)

(** When an attestation survives the query: [overall] is not below zero if
    no score is, and [overall] is at most the greatest entry. *)
Definition boundedByGreatest {N : Numeric.Numbers}
    (le : Numeric.num N → Numeric.num N → Prop)
    (attestations : list (Numeric.Attestation N)) (query : option Query.t)
    : Prop :=
  let report := Numeric.weightedReputationOf attestations query in
  Numeric.filteredAttestations attestations query ≠ [] →
  (Forall (λ a, le (Numeric.zero N) (Numeric.score a)) attestations →
   le (Numeric.zero N) (Numeric.overall report)) ∧
  ∃ k greatest,
    Numeric.getProperty k (Numeric.byCategory report) = Some greatest ∧
    (∀ k' v, Numeric.getProperty k' (Numeric.byCategory report) = Some v →
             le v greatest) ∧
    le (Numeric.overall report) greatest.

(** Two reports with the same fields, [byCategory] compared as a
    mapping. *)
Definition sameReport {N : Numeric.Numbers}
    (report report' : Numeric.WeightedReputation N) : Prop :=
  Numeric.overall report = Numeric.overall report' ∧
  (∀ k, Numeric.getProperty k (Numeric.byCategory report)
        = Numeric.getProperty k (Numeric.byCategory report')) ∧
  Numeric.decayFactor report = Numeric.decayFactor report' ∧
  Numeric.riskLevel report = Numeric.riskLevel report' ∧
  Numeric.suspicionScore report = Numeric.suspicionScore report' ∧
  Numeric.totalAttestations report = Numeric.totalAttestations report'.

(** What two lists have in common whatever the arithmetic: the count, the
    risk level and the two constants, the keys of [byCategory], and under
    each key the scores that are averaged, up to their order. *)
Definition sameUpToOrder {N : Numeric.Numbers}
    (attestations attestations' : list (Numeric.Attestation N))
    (query : option Query.t) : Prop :=
  let report := Numeric.weightedReputationOf attestations query in
  let report' := Numeric.weightedReputationOf attestations' query in
  let groups := Numeric.groups (Numeric.filteredAttestations attestations query) in
  let groups' := Numeric.groups (Numeric.filteredAttestations attestations' query) in
  Numeric.totalAttestations report = Numeric.totalAttestations report' ∧
  Numeric.riskLevel report = Numeric.riskLevel report' ∧
  Numeric.decayFactor report = Numeric.decayFactor report' ∧
  Numeric.suspicionScore report = Numeric.suspicionScore report' ∧
  (Numeric.byCategory report).*1 ≡ₚ (Numeric.byCategory report').*1 ∧
  ∀ k,
    option_Forall2 (≡ₚ) (Numeric.getProperty k groups)
      (Numeric.getProperty k groups') ∧
    Numeric.getProperty k (Numeric.byCategory report)
      = Numeric.average <$> Numeric.getProperty k groups ∧
    Numeric.getProperty k (Numeric.byCategory report')
      = Numeric.average <$> Numeric.getProperty k groups'.

(** When every score lies in [[lo, hi]]: so does every entry, and so does
    [overall] when there is an entry. *)
Definition withinRange {N : Numeric.Numbers}
    (le : Numeric.num N → Numeric.num N → Prop) (lo hi : Numeric.num N)
    (attestations : list (Numeric.Attestation N)) (query : option Query.t)
    : Prop :=
  let report := Numeric.weightedReputationOf attestations query in
  le lo hi →
  Forall (λ a, le lo (Numeric.score a) ∧ le (Numeric.score a) hi) attestations →
  (∀ k v, Numeric.getProperty k (Numeric.byCategory report) = Some v →
          le lo v ∧ le v hi) ∧
  (Numeric.byCategory report ≠ [] →
   le lo (Numeric.overall report) ∧ le (Numeric.overall report) hi).

(** * Properties *)

(** Closed goals on concrete data are settled by evaluating their decision
    procedure. *)
Ltac by_evaluation :=
  match goal with
  | |- ?P => apply (bool_decide_eq_true_1 P); vm_compute; reflexivity
  end.

(** ** The model on concrete inputs *)

Example grouping_of_specExample :
  Aggregate.byCategory specExample
  = {[ "a:x" := [Qc_of_Z 80; Qc_of_Z 100]; "a:y" := [Qc_of_Z 50] ]}.
Proof. by_evaluation. Qed.

Example filtering_of_specExample :
  Aggregate.filteredAttestations specExample queryAX
  = [att "a" "x" 80; att "a" "x" 100].
Proof. reflexivity. Qed.

(** An empty string is falsy: [{namespace: ""}] filters nothing. *)
Example empty_namespace_filters_nothing :
  Aggregate.filteredAttestations specExample
    (Some {| Query.viewerAgentId := None;
             Query.namespace := Some "";
             Query.tag := None |})
  = specExample.
Proof. reflexivity. Qed.

Example method_on_specExample :
  getWeightedReputation 7%Z None (ledgerOf specExample)
  = (Fulfilled (weightedReputationOf specExample None), ledgerOf specExample).
Proof. reflexivity. Qed.

(** A rejected read rejects the method. *)
Example method_rejects_with_the_read :
  getWeightedReputation 7%Z None
    {| trustGraph := {| tg_getAttestations := λ _, Some ["0x01"];
                        tg_getAttestation := λ _, None |};
       signer := None; nonce := 0 |}
  = (Rejected,
     {| trustGraph := {| tg_getAttestations := λ _, Some ["0x01"];
                         tg_getAttestation := λ _, None |};
        signer := None; nonce := 0 |}).
Proof. reflexivity. Qed.

(** ** Arithmetic on numbers *)

Section Numbers.
Local Open Scope Qc_scope.

Lemma foldl_Qcplus (a : Qc) (l : list Qc) :
  foldl Qcplus a l = a + sumList l.
Proof.
  revert a. induction l as [|x l IH]; intros a; simpl.
  - ring.
  - rewrite IH. ring.
Qed.

Lemma reduceSum_sumList (l : list Qc) : reduceSum l = sumList l.
Proof. unfold reduceSum. rewrite foldl_Qcplus. ring. Qed.

Lemma average_arithmeticMean (l : list Qc) : average l = arithmeticMean l.
Proof. unfold average, arithmeticMean, lengthNum. by rewrite reduceSum_sumList. Qed.

Lemma sumList_perm (l1 l2 : list Qc) : l1 ≡ₚ l2 → sumList l1 = sumList l2.
Proof.
  induction 1 as [|x l1 l2 _ IH|x y l|l1 l2 l3 _ IH1 _ IH2]; simpl.
  - done.
  - by rewrite IH.
  - ring.
  - by rewrite IH1.
Qed.

Lemma arithmeticMean_perm (l1 l2 : list Qc) :
  l1 ≡ₚ l2 → arithmeticMean l1 = arithmeticMean l2.
Proof.
  intros Hp. unfold arithmeticMean.
  by rewrite (sumList_perm _ _ Hp), (Permutation_length Hp).
Qed.

Lemma count_cons {A} (x : A) (l : list A) :
  Qc_of_Z (Z.of_nat (length (x :: l))) = Qc_of_Z (Z.of_nat (length l)) + 1.
Proof.
  simpl length. rewrite Nat2Z.inj_succ, <- Z.add_1_r.
  by rewrite Z2Qc_inj_add, Z2Qc_inj_1.
Qed.

Lemma count_pos {A} (l : list A) : l ≠ [] → 0 < Qc_of_Z (Z.of_nat (length l)).
Proof.
  intros Hl. rewrite <- Z2Qc_inj_0. apply (proj1 (Z2Qc_inj_lt 0 _)).
  destruct l; [done | simpl; lia].
Qed.

Lemma sumList_lower (lo : Qc) (l : list Qc) :
  Forall (λ x, lo ≤ x) l → lo * Qc_of_Z (Z.of_nat (length l)) ≤ sumList l.
Proof.
  induction 1 as [|x l Hx _ IH].
  - change (lo * Qc_of_Z 0 ≤ 0).
    rewrite Z2Qc_inj_0, Qcmult_0_r. apply Qcle_refl.
  - rewrite count_cons. simpl sumList.
    replace (lo * (Qc_of_Z (Z.of_nat (length l)) + 1))
      with (lo + lo * Qc_of_Z (Z.of_nat (length l))) by ring.
    by apply Qcplus_le_compat.
Qed.

Lemma sumList_upper (hi : Qc) (l : list Qc) :
  Forall (λ x, x ≤ hi) l → sumList l ≤ hi * Qc_of_Z (Z.of_nat (length l)).
Proof.
  induction 1 as [|x l Hx _ IH].
  - change (0 ≤ hi * Qc_of_Z 0).
    rewrite Z2Qc_inj_0, Qcmult_0_r. apply Qcle_refl.
  - rewrite count_cons. simpl sumList.
    replace (hi * (Qc_of_Z (Z.of_nat (length l)) + 1))
      with (hi + hi * Qc_of_Z (Z.of_nat (length l))) by ring.
    by apply Qcplus_le_compat.
Qed.

Lemma arithmeticMean_lower (lo : Qc) (l : list Qc) :
  l ≠ [] → Forall (λ x, lo ≤ x) l → lo ≤ arithmeticMean l.
Proof.
  intros Hl Hall. unfold arithmeticMean, Qcdiv.
  pose proof (count_pos l Hl) as Hpos.
  set (n := Qc_of_Z (Z.of_nat (length l))) in *.
  assert (n ≠ 0) as Hn by (intros E; by apply (Qclt_not_eq _ _ Hpos)).
  replace lo with (lo * n * / n) by (by field).
  apply Qcmult_le_compat_r.
  - by apply sumList_lower.
  - apply Qclt_le_weak, Qcinv_pos, Hpos.
Qed.

Lemma arithmeticMean_upper (hi : Qc) (l : list Qc) :
  l ≠ [] → Forall (λ x, x ≤ hi) l → arithmeticMean l ≤ hi.
Proof.
  intros Hl Hall. unfold arithmeticMean, Qcdiv.
  pose proof (count_pos l Hl) as Hpos.
  set (n := Qc_of_Z (Z.of_nat (length l))) in *.
  assert (n ≠ 0) as Hn by (intros E; by apply (Qclt_not_eq _ _ Hpos)).
  replace hi with (hi * n * / n) by (by field).
  apply Qcmult_le_compat_r.
  - by apply sumList_upper.
  - apply Qclt_le_weak, Qcinv_pos, Hpos.
Qed.

End Numbers.

(** ** The grouping loop *)

Lemma fmap_nil_of_nil {A B} (f : A → B) (l : list A) : l = [] → f <$> l = [].
Proof. by intros ->. Qed.

Lemma keyGroup_cons (k : string) (a : Attestation) (l : list Attestation) :
  keyGroup k (a :: l) =
  if decide (Aggregate.key a = k) then score a :: keyGroup k l else keyGroup k l.
Proof. unfold keyGroup. rewrite filter_cons. by case_decide. Qed.

Lemma keyGroup_nil_iff (k : string) (l : list Attestation) :
  keyGroup k l = [] ↔ ∀ a, a ∈ l → Aggregate.key a ≠ k.
Proof.
  unfold keyGroup. split.
  - intros Hnil a Ha Hk. apply fmap_nil_inv in Hnil.
    by apply (filter_nil_not_elem_of _ _ a Hnil Hk).
  - intros Hno. apply fmap_nil_of_nil. apply elem_of_nil_inv. intros a Ha.
    apply list_elem_of_filter in Ha as [Hk Ha]. by apply (Hno a).
Qed.

Lemma keyGroup_elem_of (k : string) (l : list Attestation) (x : Qc) :
  x ∈ keyGroup k l → ∃ a, a ∈ l ∧ Aggregate.key a = k ∧ score a = x.
Proof.
  unfold keyGroup. intros (a & -> & Ha)%list_elem_of_fmap.
  apply list_elem_of_filter in Ha as [Hk Ha]. by exists a.
Qed.

Lemma groupStep_lookup (m : gmap string (list Qc)) (a : Attestation) (k : string) :
  Aggregate.groupStep m a !! k =
  if decide (Aggregate.key a = k)
  then Some (default [] (m !! k) ++ [score a])
  else m !! k.
Proof.
  unfold Aggregate.groupStep. case_decide as Hk.
  - subst k. destruct (m !! Aggregate.key a) as [scores|] eqn:Hm.
    + by rewrite lookup_alter_eq, Hm.
    + by rewrite lookup_alter_eq, lookup_insert_eq.
  - rewrite lookup_alter_ne by done.
    destruct (m !! Aggregate.key a); [done|]. by rewrite lookup_insert_ne.
Qed.

Lemma foldl_groupStep_lookup (l : list Attestation) (m : gmap string (list Qc))
    (k : string) :
  foldl Aggregate.groupStep m l !! k =
  match keyGroup k l with
  | [] => m !! k
  | g => Some (default [] (m !! k) ++ g)
  end.
Proof.
  revert m. induction l as [|a l IH]; intros m; [done|].
  simpl foldl. rewrite IH, keyGroup_cons, groupStep_lookup.
  case_decide as Hk; [|done].
  simpl default. destruct (keyGroup k l) as [|x g].
  - done.
  - by rewrite <- app_assoc.
Qed.

Lemma byCategory_lookup (l : list Attestation) (k : string) :
  Aggregate.byCategory l !! k =
  match keyGroup k l with
  | [] => None
  | g => Some g
  end.
Proof.
  unfold Aggregate.byCategory. rewrite foldl_groupStep_lookup, lookup_empty.
  by destruct (keyGroup k l).
Qed.

(** No group is empty, so [scores.length] is never zero when a group is
    averaged. *)
Lemma byCategory_groups_nonempty (l : list Attestation) (k : string) (g : list Qc) :
  Aggregate.byCategory l !! k = Some g → g ≠ [].
Proof. rewrite byCategory_lookup. destruct (keyGroup k l); naive_solver. Qed.

Lemma categoryScores_lookup (l : list Attestation) (k : string) :
  Aggregate.categoryScores (Aggregate.byCategory l) !! k =
  match keyGroup k l with
  | [] => None
  | g => Some (arithmeticMean g)
  end.
Proof.
  unfold Aggregate.categoryScores.
  rewrite lookup_fmap, byCategory_lookup.
  destruct (keyGroup k l); [done|]. simpl. by rewrite average_arithmeticMean.
Qed.

(** ** Categories and their keys *)



Lemma report_byCategory_lookup (attestations : list Attestation)
    (query : option Query.t) (k : string) :
  byCategory (weightedReputationOf attestations query) !! k =
  match keyGroup k (Aggregate.filteredAttestations attestations query) with
  | [] => None
  | g => Some (arithmeticMean g)
  end.
Proof. apply categoryScores_lookup. Qed.

Lemma report_byCategory_dom (attestations : list Attestation)
    (query : option Query.t) :
  dom (byCategory (weightedReputationOf attestations query)) =
  list_to_set (Aggregate.key <$> Aggregate.filteredAttestations attestations query).
Proof.
  apply set_eq. intros k.
  rewrite elem_of_dom, report_byCategory_lookup, elem_of_list_to_set,
    list_elem_of_fmap.
  destruct (keyGroup k _) as [|x g] eqn:Hg.
  - rewrite keyGroup_nil_iff in Hg. split.
    + by intros [? ?].
    + intros (a & -> & Ha). by destruct (Hg a Ha).
  - split; [|by eauto]. intros _.
    assert (x ∈ keyGroup k (Aggregate.filteredAttestations attestations query))
      as Hx by (rewrite Hg; by left).
    apply keyGroup_elem_of in Hx as (a & Ha & <- & _). by exists a.
Qed.

Section ColonFree.
Variable surviving : list Attestation.
Hypothesis colon_free : Forall (λ a, hasColon (namespace a) = false) surviving.



End ColonFree.





(** ** The overall score *)

Lemma meanOrZero_perm (l1 l2 : list Qc) : l1 ≡ₚ l2 → meanOrZero l1 = meanOrZero l2.
Proof.
  intros Hp. destruct l1 as [|x l1], l2 as [|y l2]; simpl.
  - done.
  - by apply Permutation_nil_cons in Hp.
  - symmetry in Hp. by apply Permutation_nil_cons in Hp.
  - by apply arithmeticMean_perm.
Qed.

Lemma overall_meanOrZero (allScores : list Qc) :
  Aggregate.overall allScores = meanOrZero allScores.
Proof.
  unfold Aggregate.overall. destruct allScores as [|x l]; [done|].
  simpl Nat.ltb. fold (average (x :: l)). by rewrite average_arithmeticMean.
Qed.

Lemma report_overall (attestations : list Attestation) (query : option Query.t) :
  let report := weightedReputationOf attestations query in
  overall report = meanOrZero (map_to_list (byCategory report)).*2.
Proof. apply overall_meanOrZero. Qed.

(** The overall score does not depend on the order in which the entries of
    [byCategory] are enumerated: any duplicate-free listing of the entries
    gives the same mean. *)
Lemma report_overall_enumeration (attestations : list Attestation)
    (query : option Query.t) (entries : list (string * Qc)) :
  let report := weightedReputationOf attestations query in
  NoDup entries.*1 → list_to_map entries = byCategory report →
  overall report = meanOrZero entries.*2.
Proof.
  intros report Hnodup Hmap. unfold report. rewrite report_overall.
  fold report. rewrite <- Hmap. apply meanOrZero_perm.
  by rewrite (map_to_list_to_map entries Hnodup).
Qed.



(** ** The risk level *)

Lemma riskLevel_cases (attestations : list Attestation) :
  let n := length attestations in
  (20 < n ∧ Aggregate.riskLevel attestations = low) ∨
  (10 < n ≤ 20 ∧ Aggregate.riskLevel attestations = medium) ∨
  (5 < n ≤ 10 ∧ Aggregate.riskLevel attestations = high) ∨
  (n ≤ 5 ∧ Aggregate.riskLevel attestations = critical).
Proof.
  intros n. unfold Aggregate.riskLevel. fold n.
  destruct (Nat.ltb_spec 20 n); [by left|].
  destruct (Nat.ltb_spec 10 n); [right; left; split; [lia|done]|].
  destruct (Nat.ltb_spec 5 n); [right; right; left; split; [lia|done]|].
  right; right; right. split; [lia|done].
Qed.

(** C3: the risk level is a function of the number [n] of attestations
    before filtering: [low] iff [n > 20], [medium] iff [10 < n <= 20],
    [high] iff [5 < n <= 10], [critical] iff [n <= 5]; so 21 gives [low],
    20 and 11 give [medium], 10 and 6 give [high], 5 and 0 give
    [critical]. *)
Theorem riskLevel_thresholds (attestations : list Attestation)
    (query : option Query.t) :
  let n := length attestations in
  let level := riskLevel (weightedReputationOf attestations query) in
  (level = low ↔ 20 < n) ∧
  (level = medium ↔ 10 < n ≤ 20) ∧
  (level = high ↔ 5 < n ≤ 10) ∧
  (level = critical ↔ n ≤ 5) ∧
  (n = 21 → level = low) ∧
  (n = 20 → level = medium) ∧
  (n = 11 → level = medium) ∧
  (n = 10 → level = high) ∧
  (n = 6 → level = high) ∧
  (n = 5 → level = critical) ∧
  (n = 0 → level = critical) ∧
  (∀ attestations' query',
     length attestations' = n →
     riskLevel (weightedReputationOf attestations' query') = level).
Proof.
  intros n level.
  assert (level = Aggregate.riskLevel attestations) as -> by done.
  assert (∀ attestations' query',
            length attestations' = n →
            riskLevel (weightedReputationOf attestations' query')
            = Aggregate.riskLevel attestations) as Hsame.
  { intros attestations' query' Hlen.
    change (Aggregate.riskLevel attestations' = Aggregate.riskLevel attestations).
    unfold Aggregate.riskLevel. by rewrite Hlen. }
  pose proof (riskLevel_cases attestations) as Hcases.
  cbv zeta in Hcases. fold n in Hcases. clearbody n.
  destruct Hcases as [[? E]|[[? E]|[[? E]|[? E]]]]; rewrite E in *;
    repeat split; first [done | lia | intros; first [done | lia | by apply Hsame]].
Qed.

Lemma riskLevel_thresholds_witness :
  riskLevel (weightedReputationOf (replicate 21 (att "a" "x" 80)) None) = low ∧
  riskLevel (weightedReputationOf (replicate 20 (att "a" "x" 80)) None) = medium ∧
  riskLevel (weightedReputationOf (replicate 10 (att "a" "x" 80)) None) = high ∧
  riskLevel (weightedReputationOf (replicate 5 (att "a" "x" 80)) None) = critical.
Proof.
  split; [|split; [|split]].
  - apply (riskLevel_thresholds (replicate 21 (att "a" "x" 80)) None). reflexivity.
  - apply (riskLevel_thresholds (replicate 20 (att "a" "x" 80)) None). reflexivity.
  - apply (riskLevel_thresholds (replicate 10 (att "a" "x" 80)) None). reflexivity.
  - apply (riskLevel_thresholds (replicate 5 (att "a" "x" 80)) None). reflexivity.
Defined.

(** ** The filter *)

Lemma filter_all {A} (P : A → Prop) `{∀ x, Decision (P x)} (l : list A) :
  (∀ x, P x) → filter P l = l.
Proof.
  intros HP. induction l as [|x l IH]; [done|].
  rewrite filter_cons, IH. destruct (decide (P x)) as [|Hn]; [done | by destruct Hn].
Qed.

Lemma filterStep_filter (field : Attestation → string) (cond : option string)
    (l : list Attestation) :
  Aggregate.filterStep field cond l = filter (λ a, keeps cond (field a)) l.
Proof.
  unfold Aggregate.filterStep. destruct cond as [wanted|].
  - destruct (truthy (Some wanted)) eqn:Ht.
    + apply list_filter_iff. intros a. unfold keeps. rewrite Ht.
      split; [by intros -> | by intros [= ->]].
    + rewrite filter_all; [done|]. intros a. unfold keeps. by rewrite Ht.
  - by rewrite filter_all.
Qed.

Lemma filteredAttestations_filter (attestations : list Attestation)
    (query : option Query.t) :
  Aggregate.filteredAttestations attestations query =
  filter (survives query) attestations.
Proof.
  unfold Aggregate.filteredAttestations, survives.
  rewrite !filterStep_filter, list_filter_filter.
  apply list_filter_iff. intros a. tauto.
Qed.


Lemma elem_of_filteredAttestations (attestations : list Attestation)
    (query : option Query.t) (a : Attestation) :
  a ∈ Aggregate.filteredAttestations attestations query ↔
  survives query a ∧ a ∈ attestations.
Proof. rewrite filteredAttestations_filter. apply list_elem_of_filter. Qed.



(** ** The asynchronous method *)

Lemma getAttestation_fulfilled (this : AgentTrustSDK) (id : string)
    (a : Attestation) :
  tg_getAttestation (trustGraph this) id = Some a →
  getAttestation id this = (Fulfilled a, this).
Proof.
  intros Hget. unfold getAttestation, abind, contractRead, aret.
  rewrite Hget. by destruct a.
Qed.

Lemma promiseAll_fulfilled (this : AgentTrustSDK) (ids : list string)
    (attestations : list Attestation) :
  Forall2 (λ id a, tg_getAttestation (trustGraph this) id = Some a)
    ids attestations →
  promiseAll getAttestation ids this = (Fulfilled attestations, this).
Proof.
  induction 1 as [|id a ids attestations Hget _ IH]; [done|].
  simpl. unfold abind at 1. rewrite (getAttestation_fulfilled _ _ _ Hget).
  unfold abind at 1. by rewrite IH.
Qed.

Lemma getWeightedReputation_resolved (this : AgentTrustSDK) (agentId : Z)
    (query : option Query.t) (attestations : list Attestation) :
  resolves this agentId attestations →
  getWeightedReputation agentId query this =
  (Fulfilled (weightedReputationOf attestations query), this).
Proof.
  intros (ids & Hids & Hall).
  unfold getWeightedReputation, abind at 1, getAttestations, contractRead.
  rewrite Hids. unfold abind at 1. by rewrite (promiseAll_fulfilled _ _ _ Hall).
Qed.

Lemma length_unary (i : nat) : String.length (unary i) = i.
Proof. induction i as [|i IH]; [done|]. simpl. by rewrite IH. Qed.

Lemma ledgerOf_resolves (attestations : list Attestation) (agentId : Z) :
  resolves (ledgerOf attestations) agentId attestations.
Proof.
  exists (unary <$> seq 0 (length attestations)). split; [done|].
  apply Forall2_same_length_lookup. split.
  - by rewrite length_fmap, length_seq.
  - intros i id a Hid Ha. simpl.
    apply list_lookup_fmap_Some in Hid as (j & -> & [-> _]%lookup_seq).
    by rewrite length_unary.
Qed.

(** ** The empty input *)

Lemma filteredAttestations_nil (query : option Query.t) :
  Aggregate.filteredAttestations [] query = [].
Proof. by rewrite filteredAttestations_filter. Qed.

Lemma weightedReputationOf_nil (query : option Query.t) :
  weightedReputationOf [] query = emptyReport.
Proof.
  unfold weightedReputationOf. rewrite filteredAttestations_nil.
  unfold Aggregate.byCategory, Aggregate.categoryScores, Aggregate.allScores.
  simpl foldl. by rewrite fmap_empty, map_to_list_empty.
Qed.

(** C5: on the empty list, with any query or none, the report is
    [overall = 0], [byCategory = {}], [totalAttestations = 0],
    [riskLevel = critical]; the method fulfils with that report whenever
    the contract resolves the agent to no attestation, and it fulfils with
    a report for every list the contract resolves the agent to. *)
Theorem empty_input_report (query : option Query.t) :
  weightedReputationOf [] query = emptyReport ∧
  (∀ this agentId,
     tg_getAttestations (trustGraph this) agentId = Some [] →
     getWeightedReputation agentId query this = (Fulfilled emptyReport, this)) ∧
  (∀ this agentId attestations,
     resolves this agentId attestations →
     ∃ report,
       getWeightedReputation agentId query this = (Fulfilled report, this)).
Proof.
  split; [apply weightedReputationOf_nil|]. split.
  - intros this agentId Hnone. rewrite <- (weightedReputationOf_nil query).
    apply getWeightedReputation_resolved. exists []. by split.
  - intros this agentId attestations Hres.
    exists (weightedReputationOf attestations query).
    by apply getWeightedReputation_resolved.
Qed.

Lemma empty_input_report_witness :
  getWeightedReputation 7%Z queryAX (ledgerOf [])
    = (Fulfilled emptyReport, ledgerOf []).
Proof.
  destruct (empty_input_report queryAX) as (_ & Hempty & _).
  apply (Hempty (ledgerOf []) 7%Z). reflexivity.
Defined.

(** ** Bounds *)

Lemma report_entry_inv (attestations : list Attestation) (query : option Query.t)
    (k : string) (v : Qc) :
  byCategory (weightedReputationOf attestations query) !! k = Some v →
  ∃ g, g ≠ [] ∧ v = arithmeticMean g ∧
       ∀ x, x ∈ g →
         ∃ a, a ∈ Aggregate.filteredAttestations attestations query ∧
              Aggregate.key a = k ∧ score a = x.
Proof.
  rewrite report_byCategory_lookup.
  destruct (keyGroup k _) as [|x g] eqn:Hg; [done|].
  intros [= <-]. exists (x :: g). split; [done|]. split; [done|].
  intros y Hy. rewrite <- Hg in Hy. by apply keyGroup_elem_of in Hy.
Qed.

Lemma report_values (attestations : list Attestation) (query : option Query.t)
    (v : Qc) :
  let report := weightedReputationOf attestations query in
  v ∈ (map_to_list (byCategory report)).*2 ↔ ∃ k, byCategory report !! k = Some v.
Proof.
  intros report. rewrite list_elem_of_fmap. split.
  - intros ([k v'] & -> & Hin). exists k. by apply elem_of_map_to_list.
  - intros (k & Hk). exists (k, v). split; [done|]. by apply elem_of_map_to_list.
Qed.

Lemma report_values_nonempty (attestations : list Attestation)
    (query : option Query.t) :
  let report := weightedReputationOf attestations query in
  byCategory report ≠ ∅ → (map_to_list (byCategory report)).*2 ≠ [].
Proof.
  intros report Hne Hnil. apply fmap_nil_inv in Hnil.
  by apply map_to_list_empty_iff in Hnil.
Qed.

(** Entries are means of scores that satisfy [P], over non-empty groups. *)
Lemma report_entries_lower (attestations : list Attestation)
    (query : option Query.t) (lo : Qc) :
  Forall (λ a, (lo ≤ score a)%Qc)
    (Aggregate.filteredAttestations attestations query) →
  Forall (λ v, (lo ≤ v)%Qc)
    (map_to_list (byCategory (weightedReputationOf attestations query))).*2.
Proof.
  intros Hall. apply Forall_forall. intros v Hv.
  apply report_values in Hv as (k & Hk).
  apply report_entry_inv in Hk as (g & Hg & -> & Hfrom).
  apply arithmeticMean_lower; [done|].
  apply Forall_forall. intros x Hx.
  destruct (Hfrom x Hx) as (a & Ha & _ & <-).
  rewrite Forall_forall in Hall. by apply Hall.
Qed.

Lemma report_entries_upper (attestations : list Attestation)
    (query : option Query.t) (hi : Qc) :
  Forall (λ a, (score a ≤ hi)%Qc)
    (Aggregate.filteredAttestations attestations query) →
  Forall (λ v, (v ≤ hi)%Qc)
    (map_to_list (byCategory (weightedReputationOf attestations query))).*2.
Proof.
  intros Hall. apply Forall_forall. intros v Hv.
  apply report_values in Hv as (k & Hk).
  apply report_entry_inv in Hk as (g & Hg & -> & Hfrom).
  apply arithmeticMean_upper; [done|].
  apply Forall_forall. intros x Hx.
  destruct (Hfrom x Hx) as (a & Ha & _ & <-).
  rewrite Forall_forall in Hall. by apply Hall.
Qed.

Lemma meanOrZero_lower (lo : Qc) (l : list Qc) :
  l ≠ [] → Forall (λ v, (lo ≤ v)%Qc) l → (lo ≤ meanOrZero l)%Qc.
Proof.
  intros Hl Hall. destruct l as [|x l]; [done|].
  by apply arithmeticMean_lower.
Qed.

Lemma meanOrZero_upper (hi : Qc) (l : list Qc) :
  l ≠ [] → Forall (λ v, (v ≤ hi)%Qc) l → (meanOrZero l ≤ hi)%Qc.
Proof.
  intros Hl Hall. destruct l as [|x l]; [done|].
  by apply arithmeticMean_upper.
Qed.

(** A non-empty list of numbers has a greatest element. *)
Lemma greatest_exists (l : list Qc) :
  l ≠ [] → ∃ m, m ∈ l ∧ Forall (λ x, (x ≤ m)%Qc) l.
Proof.
  induction l as [|x l IH]; [done|]. intros _.
  destruct l as [|y l].
  - exists x. split; [by left|]. constructor; [apply Qcle_refl | constructor].
  - destruct IH as (m & Hm & Hall); [done|].
    destruct (Qclt_le_dec m x) as [Hlt|Hle].
    + exists x. split; [by left|]. constructor; [apply Qcle_refl|].
      eapply Forall_impl; [exact Hall|]. intros z Hz. simpl in Hz.
      eapply Qcle_trans; [exact Hz|]. by apply Qclt_le_weak.
    + exists m. split; [by right|]. by constructor.
Qed.

Lemma sublist_scores_filtered (attestations : list Attestation)
    (query : option Query.t) (P : Attestation → Prop) :
  Forall P attestations →
  Forall P (Aggregate.filteredAttestations attestations query).
Proof.
  intros Hall. apply Forall_forall. intros a Ha.
  apply elem_of_filteredAttestations in Ha as [_ Ha].
  rewrite Forall_forall in Hall. by apply Hall.
Qed.

Lemma report_nonempty (attestations : list Attestation) (query : option Query.t) :
  Aggregate.filteredAttestations attestations query ≠ [] →
  byCategory (weightedReputationOf attestations query) ≠ ∅.
Proof.
  intros Hne Hempty.
  destruct (Aggregate.filteredAttestations attestations query)
    as [|a l] eqn:Hsurv; [done|].
  pose proof (report_byCategory_lookup attestations query (Aggregate.key a)) as Hk.
  rewrite Hempty, lookup_empty, Hsurv, keyGroup_cons in Hk.
  by rewrite decide_True in Hk.
Qed.

(** In exact arithmetic: when at least one attestation survives the
    filter, [overall] is non-negative if every score is, and [overall] is at
    most the greatest of the entries of [byCategory]. *)
Lemma overall_nonneg_and_at_most_greatest (attestations : list Attestation)
    (query : option Query.t) :
  let report := weightedReputationOf attestations query in
  Aggregate.filteredAttestations attestations query ≠ [] →
  (Forall (λ a, (0 ≤ score a)%Qc) attestations → (0 ≤ overall report)%Qc) ∧
  ∃ k greatest,
    byCategory report !! k = Some greatest ∧
    (∀ k' v, byCategory report !! k' = Some v → (v ≤ greatest)%Qc) ∧
    (overall report ≤ greatest)%Qc.
Proof.
  intros report Hsurv.
  pose proof (report_nonempty _ _ Hsurv) as Hne.
  pose proof (report_values_nonempty _ _ Hne) as Hvals.
  split.
  - intros Hpos. unfold report. rewrite report_overall.
    apply meanOrZero_lower; [done|]. apply report_entries_lower.
    by apply sublist_scores_filtered.
  - destruct (greatest_exists _ Hvals) as (m & Hm & Hall).
    apply report_values in Hm as (k & Hk).
    exists k, m. split; [done|]. split.
    + intros k' v Hv. rewrite Forall_forall in Hall. apply Hall.
      apply report_values. by exists k'.
    + unfold report. rewrite report_overall. by apply meanOrZero_upper.
Qed.

(** In exact arithmetic: when every score of the list lies in [[lo, hi]],
    so does every entry of [byCategory], and so does [overall] as soon as
    [byCategory] has an entry. *)
Lemma range_preservation (attestations : list Attestation)
    (query : option Query.t) (lo hi : Qc) :
  let report := weightedReputationOf attestations query in
  (lo ≤ hi)%Qc →
  Forall (λ a, (lo ≤ score a ≤ hi)%Qc) attestations →
  (∀ k v, byCategory report !! k = Some v → (lo ≤ v ≤ hi)%Qc) ∧
  (byCategory report ≠ ∅ → (lo ≤ overall report ≤ hi)%Qc).
Proof.
  intros report _ Hall.
  assert (Forall (λ v, (lo ≤ v)%Qc) (map_to_list (byCategory report)).*2) as Hlo.
  { apply report_entries_lower, sublist_scores_filtered.
    eapply Forall_impl; [exact Hall|]. by intros a [? _]. }
  assert (Forall (λ v, (v ≤ hi)%Qc) (map_to_list (byCategory report)).*2) as Hhi.
  { apply report_entries_upper, sublist_scores_filtered.
    eapply Forall_impl; [exact Hall|]. by intros a [_ ?]. }
  split.
  - intros k v Hv. rewrite Forall_forall in Hlo, Hhi.
    assert (v ∈ (map_to_list (byCategory report)).*2) as Hin
      by (apply report_values; by exists k).
    split; [by apply Hlo | by apply Hhi].
  - intros Hne. pose proof (report_values_nonempty _ _ Hne) as Hvals.
    unfold report. rewrite report_overall. fold report.
    split; [by apply meanOrZero_lower | by apply meanOrZero_upper].
Qed.

(** ** Independence of the order of the input *)

Lemma keyGroup_perm (k : string) (l1 l2 : list Attestation) :
  l1 ≡ₚ l2 → keyGroup k l1 ≡ₚ keyGroup k l2.
Proof. intros Hp. unfold keyGroup. by rewrite Hp. Qed.

Lemma categoryScores_perm (l1 l2 : list Attestation) :
  l1 ≡ₚ l2 →
  Aggregate.categoryScores (Aggregate.byCategory l1) =
  Aggregate.categoryScores (Aggregate.byCategory l2).
Proof.
  intros Hp. apply map_eq. intros k. rewrite !categoryScores_lookup.
  pose proof (keyGroup_perm k _ _ Hp) as Hg.
  destruct (keyGroup k l1) as [|x g1], (keyGroup k l2) as [|y g2].
  - done.
  - by apply Permutation_nil_cons in Hg.
  - symmetry in Hg. by apply Permutation_nil_cons in Hg.
  - f_equal. by apply arithmeticMean_perm.
Qed.

Lemma filteredAttestations_perm (l1 l2 : list Attestation) (query : option Query.t) :
  l1 ≡ₚ l2 →
  Aggregate.filteredAttestations l1 query ≡ₚ Aggregate.filteredAttestations l2 query.
Proof. intros Hp. rewrite !filteredAttestations_filter. by rewrite Hp. Qed.

(** In exact arithmetic: two lists that are permutations of one another
    give the same report, field by field, [byCategory] compared as a
    mapping. *)
Lemma permutation_invariance (attestations attestations' : list Attestation)
    (query : option Query.t) :
  attestations ≡ₚ attestations' →
  weightedReputationOf attestations query = weightedReputationOf attestations' query.
Proof.
  intros Hp. unfold weightedReputationOf.
  rewrite (categoryScores_perm _ _ (filteredAttestations_perm _ _ query Hp)).
  unfold Aggregate.riskLevel. by rewrite (Permutation_length Hp).
Qed.

(** ** Determinism and absence of state *)

Lemma contractRead_preserves {A} (call : TrustGraph → option A)
    (this : AgentTrustSDK) :
  (contractRead call this).2 = this.
Proof. unfold contractRead. by destruct (call (trustGraph this)). Qed.

Lemma abind_preserves {A B} (m : Async A) (k : A → Async B) :
  (∀ this, (m this).2 = this) → (∀ a this, (k a this).2 = this) →
  ∀ this, (abind m k this).2 = this.
Proof.
  intros Hm Hk this. unfold abind.
  specialize (Hm this). destruct (m this) as [[a|] this']; simpl in Hm; subst.
  - apply Hk.
  - done.
Qed.

Lemma getAttestation_preserves (id : string) (this : AgentTrustSDK) :
  (getAttestation id this).2 = this.
Proof.
  unfold getAttestation. revert this.
  apply abind_preserves; [apply contractRead_preserves | done].
Qed.

Lemma promiseAll_preserves (ids : list string) (this : AgentTrustSDK) :
  (promiseAll getAttestation ids this).2 = this.
Proof.
  revert this. induction ids as [|id ids IH]; [done|]. simpl.
  apply abind_preserves; [apply getAttestation_preserves|]. intros a.
  apply abind_preserves; [apply IH | done].
Qed.

Lemma getWeightedReputation_preserves (agentId : Z) (query : option Query.t)
    (this : AgentTrustSDK) :
  (getWeightedReputation agentId query this).2 = this.
Proof.
  unfold getWeightedReputation. revert this.
  apply abind_preserves; [apply contractRead_preserves|]. intros ids.
  apply abind_preserves; [apply promiseAll_preserves | done].
Qed.

(** C8: a call leaves the SDK object as it found it, so a second call made
    after the first settles the same way; and the report depends on the SDK
    object only through the list of attestations the contract resolves the
    agent to: two objects that resolve it to the same list give the same
    report, which is [weightedReputationOf] of that list and the query. *)
Theorem deterministic_and_stateless (agentId : Z) (query : option Query.t) :
  (∀ this, (getWeightedReputation agentId query this).2 = this) ∧
  (∀ this,
     let first := getWeightedReputation agentId query this in
     let second := getWeightedReputation agentId query first.2 in
     second = first) ∧
  (∀ this this' attestations,
     resolves this agentId attestations →
     resolves this' agentId attestations →
     (getWeightedReputation agentId query this).1
       = Fulfilled (weightedReputationOf attestations query) ∧
     (getWeightedReputation agentId query this').1
       = (getWeightedReputation agentId query this).1).
Proof.
  split; [apply getWeightedReputation_preserves|]. split.
  - intros this first second. unfold second, first.
    by rewrite getWeightedReputation_preserves.
  - intros this this' attestations Hres Hres'.
    by rewrite !(getWeightedReputation_resolved _ _ _ attestations).
Qed.

Lemma deterministic_and_stateless_witness :
  (getWeightedReputation 7%Z None (ledgerOf specExample)).1
    = Fulfilled (weightedReputationOf specExample None) ∧
  (getWeightedReputation 7%Z None signingSDK).1
    = (getWeightedReputation 7%Z None (ledgerOf specExample)).1.
Proof.
  destruct (deterministic_and_stateless 7%Z None) as (_ & _ & Hsame).
  apply (Hsame (ledgerOf specExample) signingSDK specExample).
  - exists (unary <$> seq 0 (length specExample)). split; [reflexivity|].
    repeat constructor.
  - exists (unary <$> seq 0 (length specExample)). split; [reflexivity|].
    repeat constructor.
Defined.

(** ** The constant fields *)




(** * Further properties of the code *)

(** ** When the method fulfils *)

Lemma getAttestation_cases (id : string) (this : AgentTrustSDK) :
  getAttestation id this =
  match tg_getAttestation (trustGraph this) id with
  | Some a => (Fulfilled a, this)
  | None => (Rejected, this)
  end.
Proof.
  unfold getAttestation, abind, contractRead, aret.
  destruct (tg_getAttestation (trustGraph this) id) as [a|]; [|done].
  by destruct a.
Qed.

Lemma promiseAll_cons (id : string) (ids : list string) (this : AgentTrustSDK) :
  promiseAll getAttestation (id :: ids) this =
  match tg_getAttestation (trustGraph this) id with
  | Some a =>
      match promiseAll getAttestation ids this with
      | (Fulfilled bs, this') => (Fulfilled (a :: bs), this')
      | (Rejected, this') => (Rejected, this')
      end
  | None => (Rejected, this)
  end.
Proof.
  simpl. unfold abind at 1. rewrite getAttestation_cases.
  by destruct (tg_getAttestation (trustGraph this) id).
Qed.

Lemma promiseAll_cases (ids : list string) (this : AgentTrustSDK) :
  (∃ attestations,
     Forall2 (λ id a, tg_getAttestation (trustGraph this) id = Some a)
       ids attestations ∧
     promiseAll getAttestation ids this = (Fulfilled attestations, this)) ∨
  ((∃ id, id ∈ ids ∧ tg_getAttestation (trustGraph this) id = None) ∧
   promiseAll getAttestation ids this = (Rejected, this)).
Proof.
  induction ids as [|id ids IH].
  - left. exists []. by split.
  - rewrite promiseAll_cons.
    destruct (tg_getAttestation (trustGraph this) id) as [a|] eqn:Hid.
    + destruct IH as [(attestations & Hall & ->)|[Hbad ->]].
      * left. exists (a :: attestations). split; [by constructor | done].
      * right. split; [|done]. destruct Hbad as (id' & Hin & Hnone).
        exists id'. split; [by right | done].
    + right. split; [|done]. exists id. split; [by left | done].
Qed.

Lemma getWeightedReputation_unfold (agentId : Z) (query : option Query.t)
    (this : AgentTrustSDK) :
  getWeightedReputation agentId query this =
  match tg_getAttestations (trustGraph this) agentId with
  | Some ids =>
      match promiseAll getAttestation ids this with
      | (Fulfilled attestations, this') =>
          (Fulfilled (weightedReputationOf attestations query), this')
      | (Rejected, this') => (Rejected, this')
      end
  | None => (Rejected, this)
  end.
Proof.
  unfold getWeightedReputation, abind at 1, getAttestations, contractRead.
  by destruct (tg_getAttestations (trustGraph this) agentId).
Qed.

Lemma getWeightedReputation_cases (agentId : Z) (query : option Query.t)
    (this : AgentTrustSDK) :
  (∃ attestations,
     resolves this agentId attestations ∧
     getWeightedReputation agentId query this
     = (Fulfilled (weightedReputationOf attestations query), this)) ∨
  ((tg_getAttestations (trustGraph this) agentId = None ∨
    ∃ ids id, tg_getAttestations (trustGraph this) agentId = Some ids ∧
              id ∈ ids ∧ tg_getAttestation (trustGraph this) id = None) ∧
   getWeightedReputation agentId query this = (Rejected, this)).
Proof.
  rewrite getWeightedReputation_unfold.
  destruct (tg_getAttestations (trustGraph this) agentId) as [ids|] eqn:Hids.
  - destruct (promiseAll_cases ids this) as [(attestations & Hall & ->)|[Hbad ->]].
    + left. exists attestations. split; [by exists ids | done].
    + right. split; [|done]. right. destruct Hbad as (id & Hin & Hnone).
      by exists ids, id.
  - right. split; [by left | done].
Qed.

(** X1: a read that rejects rejects the method: the read of the
    identifiers, or the read of any one of the listed attestations.  When
    the method fulfils, every read has fulfilled and the report is the one
    of the attestations read, in the order of the identifiers.  However it
    settles, the SDK object is left as it was. *)
Theorem getWeightedReputation_all_or_nothing (agentId : Z)
    (query : option Query.t) (this : AgentTrustSDK) :
  (∀ report this',
     getWeightedReputation agentId query this = (Fulfilled report, this') →
     ∃ attestations, resolves this agentId attestations ∧
                     report = weightedReputationOf attestations query) ∧
  (tg_getAttestations (trustGraph this) agentId = None ∨
   (∃ ids id, tg_getAttestations (trustGraph this) agentId = Some ids ∧
              id ∈ ids ∧ tg_getAttestation (trustGraph this) id = None) →
   getWeightedReputation agentId query this = (Rejected, this)) ∧
  (getWeightedReputation agentId query this).2 = this.
Proof.
  split; [|split].
  - intros report this' Hrun.
    destruct (getWeightedReputation_cases agentId query this)
      as [(attestations & Hres & Heq)|[_ Heq]]; rewrite Heq in Hrun; [|done].
    injection Hrun as <- _. by exists attestations.
  - intros Hbad.
    destruct (getWeightedReputation_cases agentId query this)
      as [(attestations & Hres & _)|[_ Heq]]; [|done]. exfalso.
    destruct Hres as (ids & Hids & Hall).
    destruct Hbad as [Hnone|(ids' & id & Hids' & Hin & Hnone)]; [congruence|].
    assert (ids' = ids) as -> by congruence.
    apply list_elem_of_lookup in Hin as [i Hi].
    destruct (Forall2_lookup_l _ _ _ _ _ Hall Hi) as (a & _ & Ha). congruence.
  - apply getWeightedReputation_preserves.
Qed.

Lemma getWeightedReputation_all_or_nothing_witness :
  getWeightedReputation 7%Z None unreadableLedger = (Rejected, unreadableLedger).
Proof.
  destruct (getWeightedReputation_all_or_nothing 7%Z None unreadableLedger)
    as (_ & Hrejects & _).
  apply Hrejects. right.
  exists ["0x01"], "0x01". split; [reflexivity|]. split; [by left | reflexivity].
Defined.

(** ** Lists put end to end *)




(** ** What the query does *)


Lemma filterStep_effective (field : Attestation → string) (cond : option string)
    (l : list Attestation) :
  Aggregate.filterStep field cond l =
  match effectiveFilter cond with
  | Some wanted => filter (λ a, field a = wanted) l
  | None => l
  end.
Proof.
  unfold Aggregate.filterStep, effectiveFilter.
  destruct cond as [wanted|]; [|done]. by destruct (truthy (Some wanted)).
Qed.

(** X3: the report depends on the query only through the namespace and the
    tag it filters by, and an empty string filters by nothing: queries with
    the same truthy namespace and tag give the same report, so
    [viewerAgentId] has no effect, and [{namespace: ""}] is the same as no
    query. *)
Theorem query_read_through_truthy_filters (attestations : list Attestation)
    (query query' : option Query.t) :
  effectiveQuery query = effectiveQuery query' →
  weightedReputationOf attestations query = weightedReputationOf attestations query'.
Proof.
  intros [= Hns Htag].
  assert (Aggregate.filteredAttestations attestations query
          = Aggregate.filteredAttestations attestations query') as Hsame.
  { unfold Aggregate.filteredAttestations.
    by rewrite !filterStep_effective, Hns, Htag. }
  unfold weightedReputationOf. by rewrite Hsame.
Qed.

Lemma query_read_through_truthy_filters_witness :
  weightedReputationOf specExample
    (Some {| Query.viewerAgentId := Some 5%Z;
             Query.namespace := Some "";
             Query.tag := None |})
  = weightedReputationOf specExample None.
Proof. apply query_read_through_truthy_filters. reflexivity. Defined.





(** ** One attestation, one entry *)




(** ** More attestations, less risk *)

(** X6: the risk level never gets worse when the list grows: a list at
    least as long as another is given a level at most as severe, whatever
    the scores and the queries. *)
Theorem riskLevel_monotone (attestations attestations' : list Attestation)
    (query query' : option Query.t) :
  length attestations ≤ length attestations' →
  riskRank (riskLevel (weightedReputationOf attestations' query'))
  ≤ riskRank (riskLevel (weightedReputationOf attestations query)).
Proof.
  intros Hle.
  change (riskRank (Aggregate.riskLevel attestations')
          ≤ riskRank (Aggregate.riskLevel attestations)).
  destruct (riskLevel_cases attestations) as [[? ->]|[[? ->]|[[? ->]|[? ->]]]];
    destruct (riskLevel_cases attestations') as [[? ->]|[[? ->]|[[? ->]|[? ->]]]];
    simpl; lia.
Qed.

Lemma riskLevel_monotone_witness :
  riskRank (riskLevel (weightedReputationOf (replicate 11 (att "a" "x" 0)) None))
  ≤ riskRank (riskLevel (weightedReputationOf specExample queryAX)).
Proof.
  apply riskLevel_monotone. vm_compute. lia.
Defined.

(** ** How many entries *)

Lemma size_list_to_set_le (l : list string) :
  size (list_to_set l : gset string) ≤ length l.
Proof.
  unfold size, set_size. simpl. apply submseteq_length, NoDup_submseteq.
  - apply NoDup_elements.
  - intros k Hk. by apply elem_of_elements, elem_of_list_to_set in Hk.
Qed.

(** X7: [byCategory] has at most as many entries as attestations survive
    the query, which are at most [totalAttestations]; and it is empty
    exactly when no attestation survives. *)
Theorem entries_bounded_by_survivors (attestations : list Attestation)
    (query : option Query.t) :
  let report := weightedReputationOf attestations query in
  let surviving := Aggregate.filteredAttestations attestations query in
  size (byCategory report) ≤ length surviving ∧
  length surviving ≤ totalAttestations report ∧
  (byCategory report = ∅ ↔ surviving = []).
Proof.
  intros report surviving. split; [|split].
  - rewrite <- (size_dom (D := gset string)). unfold report.
    rewrite report_byCategory_dom. fold surviving.
    etrans; [apply size_list_to_set_le|]. by rewrite length_fmap.
  - unfold surviving. rewrite filteredAttestations_filter. apply length_filter.
  - split.
    + intros Hempty. destruct (decide (surviving = [])) as [|Hne]; [done|].
      by destruct (report_nonempty attestations query Hne).
    + intros Hnil. apply map_eq. intros k. unfold report.
      rewrite report_byCategory_lookup. fold surviving. by rewrite Hnil.
Qed.

Lemma entries_bounded_by_survivors_witness :
  byCategory (weightedReputationOf [att "b" "z" 7] queryAX) = ∅.
Proof.
  apply (entries_bounded_by_survivors [att "b" "z" 7] queryAX). reflexivity.
Defined.

(** ** Keys and inherited properties *)

Lemma hasColon_app (s t : string) : hasColon (s +:+ ":" +:+ t) = true.
Proof.
  induction s as [|c s IH]; simpl; [done|].
  by destruct (Ascii.eqb c ":").
Qed.

(** X8: every key of [byCategory] contains a colon; none is therefore the
    name of a property a plain object inherits, [__proto__] and
    [constructor] included, whatever the namespaces and tags are. *)
Theorem keys_are_not_inherited_names (attestations : list Attestation)
    (query : option Query.t) (k : string) :
  is_Some (byCategory (weightedReputationOf attestations query) !! k) →
  hasColon k = true ∧ k ∉ prototypeNames.
Proof.
  intros Hk. apply elem_of_dom in Hk. rewrite report_byCategory_dom in Hk.
  apply elem_of_list_to_set, list_elem_of_fmap in Hk as (a & -> & _).
  assert (hasColon (Aggregate.key a) = true) as Hcolon by apply hasColon_app.
  split; [done|]. intros Hin.
  assert (Forall (λ name, hasColon name = false) prototypeNames) as Hnone
    by (repeat constructor).
  rewrite Forall_forall in Hnone. specialize (Hnone _ Hin). congruence.
Qed.

Lemma keys_are_not_inherited_names_witness :
  hasColon "__proto__:" = true ∧ "__proto__:" ∉ prototypeNames.
Proof.
  apply (keys_are_not_inherited_names [att "__proto__" "" 1] None).
  by_evaluation.
Defined.

(** ** The write methods *)

Lemma removeTrust_refused (eth : Ethers) (toAgent : Z) (this : AgentTrustSDK) :
  signer this = None → removeTrust eth toAgent this = (refused, this).
Proof.
  intros Hnone. unfold removeTrust, mthen, requireSigner. by rewrite Hnone.
Qed.

(** X10: on an SDK object without a signer the five write methods throw
    ['Signer required for write operations'] and [getAgentId] throws
    ['Signer required'], whatever their arguments and whatever the
    contracts would do: no transaction is sent and the SDK object is left
    as it was. *)
Theorem writes_need_a_signer (eth : Ethers) (this : AgentTrustSDK) :
  signer this = None →
  (∀ params, registerInteraction eth params this = (refused, this)) ∧
  (∀ params, registerSchema eth params this = (refused, this)) ∧
  (∀ params, setTrust eth params this = (refused, this)) ∧
  (∀ toAgent, removeTrust eth toAgent this = (refused, this)) ∧
  (∀ params, submitAttestation eth params this = (refused, this)) ∧
  getAgentId this = (Threw (Error "Signer required"), this).
Proof.
  intros Hnone.
  unfold registerInteraction, registerSchema, setTrust, removeTrust,
    submitAttestation, getAgentId, mthen, requireSigner.
  rewrite Hnone. by repeat split.
Qed.

Lemma writes_need_a_signer_witness :
  registerInteraction sampleEthers sampleInteraction (ledgerOf specExample)
  = (refused, ledgerOf specExample).
Proof.
  destruct (writes_need_a_signer sampleEthers (ledgerOf specExample))
    as [Hregister _]; [reflexivity|].
  apply Hregister.
Defined.

(** X11: the constructor gives the SDK object a signer exactly when the
    configuration has a truthy private key.  Without a key, or with the
    empty string as key, no wallet is made, the construction cannot fail,
    and the object is read-only: its write methods throw. *)
Theorem signer_iff_private_key (eth : Ethers) (config : SDKConfig) :
  (∀ this, construct eth config = Some this →
           (is_Some (signer this) ↔ truthy (privateKey config) = true) ∧
           nonce this = 0) ∧
  (truthy (privateKey config) = false →
   ∃ this, construct eth config = Some this ∧
           signer this = None ∧
           ∀ toAgent, removeTrust eth toAgent this = (refused, this)).
Proof.
  unfold construct. split.
  - intros this. destruct (truthy (privateKey config)) eqn:Htruthy.
    + destruct (privateKey config) as [key|]; [|done].
      destruct (walletOf eth key) as [address|]; [|done].
      intros [= <-]. simpl. split; [|done]. split; [done | by eexists].
    + intros [= <-]. simpl. split; [|done]. split; [by intros [? ?] | done].
  - intros ->. eexists. split; [done|]. split; [done|]. intros toAgent.
    by apply removeTrust_refused.
Qed.

Lemma signer_iff_private_key_witness :
  ∃ this,
    construct sampleEthers
      {| rpcUrl := "https://sepolia.base.org";
         privateKey := Some "";
         trustGraphAddress := "0x8DC3" |} = Some this ∧
    signer this = None ∧
    ∀ toAgent, removeTrust sampleEthers toAgent this = (refused, this).
Proof.
  apply (signer_iff_private_key sampleEthers). reflexivity.
Defined.

(** ** The interaction hash *)

Lemma bytes32Shaped_test (s : string) :
  String.prefix "0x" s && (String.length s =? 66) = true ↔ bytes32Shaped s.
Proof.
  unfold bytes32Shaped. rewrite andb_true_iff, Nat.eqb_eq. done.
Qed.

Lemma codeUnits_length (s : string) : length (codeUnits s) = String.length s.
Proof.
  unfold codeUnits. rewrite length_fmap.
  induction s as [|c s IH]; simpl; [done | by rewrite IH].
Qed.

Lemma codeUnits_below_256 (s : string) : Forall (λ u, (u < 256)%N) (codeUnits s).
Proof.
  unfold codeUnits. apply Forall_fmap, Forall_forall. intros c _.
  apply N_ascii_bounded.
Qed.

Lemma N_of_ascii_eqb (c d : ascii) :
  (N_of_ascii c =? N_of_ascii d)%N = bool_decide (c = d).
Proof.
  destruct (decide (c = d)) as [->|Hne].
  - by rewrite N.eqb_refl, bool_decide_eq_true_2.
  - rewrite bool_decide_eq_false_2 by done. apply N.eqb_neq. intros Heq.
    apply Hne. by rewrite <- (ascii_N_embedding c), <- (ascii_N_embedding d), Heq.
Qed.

Lemma prefix_startsWith (searchString s : string) :
  String.prefix searchString s = startsWith (codeUnits s) (codeUnits searchString).
Proof.
  revert s. induction searchString as [|c p IH]; intros s; [by destruct s|].
  destruct s as [|d s]; [reflexivity|].
  change (codeUnits (String c p)) with (N_of_ascii c :: codeUnits p).
  change (codeUnits (String d s)) with (N_of_ascii d :: codeUnits s).
  simpl. rewrite N_of_ascii_eqb, <- IH.
  destruct (Ascii.ascii_dec c d) as [->|Hne].
  - by rewrite bool_decide_eq_true_2.
  - rewrite bool_decide_eq_false_2; [done|]. intros Heq. by apply Hne.
Qed.

Lemma bytes32Shaped_codeUnits (s : string) :
  bytes32Shaped s ↔
  startsWith (codeUnits s) [48; 120]%N = true ∧ length (codeUnits s) = 66.
Proof.
  unfold bytes32Shaped. by rewrite codeUnits_length, (prefix_startsWith "0x" s).
Qed.

(** X12: for an interaction hash whose UTF-16 code units are all below 256
    (the strings of the model, one character per code unit): the test of
    line 92 is that the code units start with those of [0x] and that there
    are 66 of them.  The interaction hash is sent as it is exactly when it
    passes the test, whatever the 64 other code units are, and is replaced
    by the digest of its UTF-8 bytes otherwise.  When digests are 32 bytes
    in hexadecimal, what is sent always has that shape, and converting
    twice is the same as converting once. *)
Theorem hashBytes32_shape (eth : Ethers) (interactionHash : string) :
  Forall (λ u, (u < 256)%N) (codeUnits interactionHash) ∧
  (String.prefix "0x" interactionHash && (String.length interactionHash =? 66)
   = startsWith (codeUnits interactionHash) [48; 120]%N
     && (length (codeUnits interactionHash) =? 66)) ∧
  (bytes32Shaped interactionHash ↔
   startsWith (codeUnits interactionHash) [48; 120]%N = true ∧
   length (codeUnits interactionHash) = 66) ∧
  (bytes32Shaped interactionHash →
   hashBytes32 eth interactionHash = interactionHash) ∧
  (¬ bytes32Shaped interactionHash →
   hashBytes32 eth interactionHash = keccak256Utf8 eth interactionHash) ∧
  ((∀ s, bytes32Shaped (keccak256Utf8 eth s)) →
   bytes32Shaped (hashBytes32 eth interactionHash) ∧
   hashBytes32 eth (hashBytes32 eth interactionHash)
   = hashBytes32 eth interactionHash).
Proof.
  assert (∀ h, bytes32Shaped h → hashBytes32 eth h = h) as Hkeep.
  { intros h Hh. unfold hashBytes32.
    by rewrite (proj2 (bytes32Shaped_test h) Hh). }
  assert (∀ h, ¬ bytes32Shaped h → hashBytes32 eth h = keccak256Utf8 eth h)
    as Hdigest.
  { intros h Hh. unfold hashBytes32.
    destruct (String.prefix "0x" h && (String.length h =? 66)) eqn:Htest; [|done].
    by apply bytes32Shaped_test in Htest. }
  split; [apply codeUnits_below_256|].
  split; [by rewrite codeUnits_length, (prefix_startsWith "0x" interactionHash)|].
  split; [apply bytes32Shaped_codeUnits|].
  split; [apply Hkeep|]. split; [apply Hdigest|].
  intros Hkeccak.
  assert (bytes32Shaped (hashBytes32 eth interactionHash)) as Hshape.
  { unfold hashBytes32.
    destruct (String.prefix "0x" interactionHash
              && (String.length interactionHash =? 66)) eqn:Htest.
    - by apply bytes32Shaped_test.
    - apply Hkeccak. }
  split; [done | by apply Hkeep].
Qed.

Lemma hashBytes32_shape_witness :
  hashBytes32 sampleEthers zeroDigest = zeroDigest ∧
  hashBytes32 sampleEthers "ipfs://QmInteraction" = zeroDigest ∧
  bytes32Shaped (hashBytes32 sampleEthers "ipfs://QmInteraction").
Proof.
  destruct (hashBytes32_shape sampleEthers zeroDigest) as (_ & _ & _ & Hkeep & _ & _).
  destruct (hashBytes32_shape sampleEthers "ipfs://QmInteraction")
    as (_ & _ & _ & _ & Hdigest & Hshape).
  split; [apply Hkeep; by split|].
  split; [apply Hdigest; by intros [[=] _]|].
  apply Hshape. intros s. by split.
Defined.

(** ** The identifier read from the receipt *)

Lemma findEvent_first (topicHash : string) (pre post : list Log) (log : Log)
    (txHash : string) :
  Forall (λ l, topics l !! 0 ≠ Some topicHash) pre →
  topics log !! 0 = Some topicHash →
  findEvent topicHash {| logs := pre ++ log :: post; hash := txHash |} = Some log.
Proof.
  intros Hpre Hlog. unfold findEvent. simpl.
  induction Hpre as [|l pre Hl _ IH]; simpl.
  - by rewrite bool_decide_eq_true_2.
  - by rewrite bool_decide_eq_false_2.
Qed.

Lemma findEvent_none (topicHash : string) (receipt : TransactionReceipt) :
  Forall (λ l, topics l !! 0 ≠ Some topicHash) (logs receipt) →
  findEvent topicHash receipt = None.
Proof.
  unfold findEvent. induction 1 as [|l ls Hl _ IH]; simpl; [done|].
  by rewrite bool_decide_eq_false_2.
Qed.

Lemma findEvent_some (topicHash : string) (receipt : TransactionReceipt)
    (log : Log) :
  findEvent topicHash receipt = Some log →
  log ∈ logs receipt ∧ topics log !! 0 = Some topicHash.
Proof.
  unfold findEvent. intros Hfind. apply find_some in Hfind as [Hin Htest].
  split; [by apply list_elem_of_In | by apply bool_decide_eq_true in Htest].
Qed.

(** X13: the identifier returned after a registration is the second topic
    of the first log of the receipt whose first topic is the event's topic
    hash; later logs of the same event are ignored.  It is the empty string
    when the receipt has no such log, and also when that log has no second
    topic; a non-empty identifier is always a topic of a log of the event
    in the receipt. *)
Theorem identifier_from_first_matching_log (topicHash : string)
    (receipt : TransactionReceipt) :
  let id := secondTopic (findEvent topicHash receipt) in
  (∀ pre log post,
     logs receipt = pre ++ log :: post →
     Forall (λ l, topics l !! 0 ≠ Some topicHash) pre →
     topics log !! 0 = Some topicHash →
     id = default "" (topics log !! 1)) ∧
  (Forall (λ l, topics l !! 0 ≠ Some topicHash) (logs receipt) → id = "") ∧
  (id ≠ "" →
   ∃ log, log ∈ logs receipt ∧
          topics log !! 0 = Some topicHash ∧ topics log !! 1 = Some id).
Proof.
  intros id. split; [|split].
  - intros pre log post Hlogs Hpre Hlog. unfold id.
    destruct receipt as [ls txHash]. simpl in Hlogs. subst ls.
    by rewrite (findEvent_first _ _ _ _ _ Hpre Hlog).
  - intros Hnone. unfold id. by rewrite findEvent_none.
  - unfold id. destruct (findEvent topicHash receipt) as [log|] eqn:Hfind; [|done].
    intros Hid. apply findEvent_some in Hfind as [Hin Hfirst].
    exists log. split; [done|]. split; [done|].
    simpl in *. by destruct (topics log !! 1).
Qed.

Lemma identifier_from_first_matching_log_witness :
  secondTopic (findEvent "0xevent" sampleReceipt) = "0x01".
Proof.
  destruct (identifier_from_first_matching_log "0xevent" sampleReceipt)
    as [Hfirst _].
  apply (Hfirst [ {| topics := ["0xother"; "0xaa"] |} ]
                {| topics := ["0xevent"; "0x01"] |}
                [ {| topics := ["0xevent"; "0x02"] |} ]).
  - reflexivity.
  - repeat constructor. discriminate.
  - reflexivity.
Defined.

(** ** Registering an interaction *)

Lemma registerInteraction_unfold (eth : Ethers)
    (params : RegisterInteractionParams) (this : AgentTrustSDK) :
  registerInteraction eth params this =
  match signer this with
  | None => (refused, this)
  | Some agentA =>
      match sendAndWait eth
              (CallRegisterInteraction agentA (ri_agentB params)
                 (hashBytes32 eth (ri_interactionHash params))
                 (ri_interactionType params)) this with
      | (None, this') => (Threw CallException, this')
      | (Some receipt, this') =>
          match getEvent eth InteractionRegistry "InteractionRegistered" with
          | None =>
              (Threw (Error "InteractionRegistered event not found"), this')
          | Some topicHash =>
              (Returned {| ri_interactionId :=
                             secondTopic (findEvent topicHash receipt);
                           ri_txHash := hash receipt |}, this')
          end
      end
  end.
Proof.
  unfold registerInteraction, mthen, requireSigner, getAgentId, transact.
  destruct (signer this) as [agentA|] eqn:Hsigner; [|done].
  unfold requireSigner. rewrite Hsigner.
  destruct (sendAndWait eth _ this) as [[receipt|] this']; [|done].
  by destruct (getEvent eth InteractionRegistry "InteractionRegistered").
Qed.

(** X14: whenever [registerInteraction] returns, a transaction registering
    the interaction was mined in which [agentA] is the signer of the SDK
    object and the hash is the converted one; the result carries the hash of
    that transaction and the identifier read from its receipt.  When the
    ABI does not know the event, the method throws only after the
    transaction was mined: the SDK object is the one the transaction left.
    The method never throws the ['Signer required'] of [getAgentId]. *)
Theorem registerInteraction_outcomes (eth : Ethers)
    (params : RegisterInteractionParams) (this : AgentTrustSDK) :
  (∀ result this',
     registerInteraction eth params this = (Returned result, this') →
     ∃ agentA receipt topicHash,
       signer this = Some agentA ∧
       sendAndWait eth
         (CallRegisterInteraction agentA (ri_agentB params)
            (hashBytes32 eth (ri_interactionHash params))
            (ri_interactionType params)) this = (Some receipt, this') ∧
       getEvent eth InteractionRegistry "InteractionRegistered" = Some topicHash ∧
       ri_txHash result = hash receipt ∧
       ri_interactionId result = secondTopic (findEvent topicHash receipt)) ∧
  (∀ agentA receipt this',
     signer this = Some agentA →
     sendAndWait eth
       (CallRegisterInteraction agentA (ri_agentB params)
          (hashBytes32 eth (ri_interactionHash params))
          (ri_interactionType params)) this = (Some receipt, this') →
     getEvent eth InteractionRegistry "InteractionRegistered" = None →
     registerInteraction eth params this
     = (Threw (Error "InteractionRegistered event not found"), this')) ∧
  (registerInteraction eth params this).1 ≠ Threw (Error "Signer required").
Proof.
  rewrite registerInteraction_unfold. split; [|split].
  - intros result this'. destruct (signer this) as [agentA|]; [|done].
    destruct (sendAndWait eth _ this) as [[receipt|] this''] eqn:Hsend; [|done].
    destruct (getEvent eth _ _) as [topicHash|] eqn:Hevent; [|done].
    intros [= <- <-]. by exists agentA, receipt, topicHash.
  - intros agentA receipt this' -> -> ->. done.
  - destruct (signer this) as [agentA|]; [|done].
    destruct (sendAndWait eth _ this) as [[receipt|] this'']; [|done].
    by destruct (getEvent eth _ _).
Qed.

Lemma registerInteraction_outcomes_witness :
  registerInteraction eventlessEthers sampleInteraction signingSDK
  = (Threw (Error "InteractionRegistered event not found"),
     {| trustGraph := trustGraph signingSDK; signer := Some 5%Z; nonce := 4 |}).
Proof.
  destruct (registerInteraction_outcomes eventlessEthers sampleInteraction
              signingSDK) as (_ & Hthrows & _).
  apply (Hthrows 5%Z sampleReceipt); reflexivity.
Defined.

(** ** Registering a schema *)

Lemma registerSchema_unfold (eth : Ethers) (params : RegisterSchemaParams)
    (this : AgentTrustSDK) :
  registerSchema eth params this =
  match signer this with
  | None => (refused, this)
  | Some _ =>
      match sendAndWait eth
              (CallRegisterSchema (rs_namespace params) (rs_name params)
                 (rs_description params) (rs_allowedTags params)
                 (rs_minScore params) (rs_maxScore params)) this with
      | (None, this') => (Threw CallException, this')
      | (Some receipt, this') =>
          match getEvent eth SchemaRegistry "SchemaRegistered" with
          | None => (Threw (Error "SchemaRegistered event not found"), this')
          | Some topicHash =>
              (Returned (secondTopic (findEvent topicHash receipt)), this')
          end
      end
  end.
Proof.
  unfold registerSchema, mthen, requireSigner, transact.
  destruct (signer this) as [address|]; [|done].
  destruct (sendAndWait eth _ this) as [[receipt|] this']; [|done].
  by destruct (getEvent eth SchemaRegistry "SchemaRegistered").
Qed.

(** X15: whenever [registerSchema] returns, the transaction registering the
    schema, with the six fields of the parameters, was mined, and the
    schema identifier is the one read from its receipt; a rejected
    transaction rejects the method; and when the ABI does not know the
    event, the method throws only after the transaction was mined. *)
Theorem registerSchema_outcomes (eth : Ethers) (params : RegisterSchemaParams)
    (this : AgentTrustSDK) :
  let call :=
    CallRegisterSchema (rs_namespace params) (rs_name params)
      (rs_description params) (rs_allowedTags params)
      (rs_minScore params) (rs_maxScore params) in
  (∀ schemaId this',
     registerSchema eth params this = (Returned schemaId, this') →
     ∃ receipt topicHash,
       is_Some (signer this) ∧
       sendAndWait eth call this = (Some receipt, this') ∧
       getEvent eth SchemaRegistry "SchemaRegistered" = Some topicHash ∧
       schemaId = secondTopic (findEvent topicHash receipt)) ∧
  (∀ this',
     is_Some (signer this) →
     sendAndWait eth call this = (None, this') →
     registerSchema eth params this = (Threw CallException, this')) ∧
  (∀ receipt this',
     is_Some (signer this) →
     sendAndWait eth call this = (Some receipt, this') →
     getEvent eth SchemaRegistry "SchemaRegistered" = None →
     registerSchema eth params this
     = (Threw (Error "SchemaRegistered event not found"), this')).
Proof.
  intros call. rewrite registerSchema_unfold. fold call. split; [|split].
  - intros schemaId this'. destruct (signer this) as [address|]; [|done].
    destruct (sendAndWait eth call this) as [[receipt|] this''] eqn:Hsend; [|done].
    destruct (getEvent eth _ _) as [topicHash|] eqn:Hevent; [|done].
    intros [= <- <-]. exists receipt, topicHash. by repeat split.
  - intros this' [address ->] ->. done.
  - intros receipt this' [address ->] -> ->. done.
Qed.

Lemma registerSchema_outcomes_witness :
  registerSchema eventlessEthers
    {| rs_namespace := "compute-market.v1"; rs_name := "Compute";
       rs_description := ""; rs_allowedTags := ["service.quality"];
       rs_minScore := Qc_of_Z 0; rs_maxScore := Qc_of_Z 100 |}
    signingSDK
  = (Threw (Error "SchemaRegistered event not found"),
     {| trustGraph := trustGraph signingSDK; signer := Some 5%Z; nonce := 4 |}).
Proof.
  destruct (registerSchema_outcomes eventlessEthers
              {| rs_namespace := "compute-market.v1"; rs_name := "Compute";
                 rs_description := ""; rs_allowedTags := ["service.quality"];
                 rs_minScore := Qc_of_Z 0; rs_maxScore := Qc_of_Z 100 |}
              signingSDK) as (_ & _ & Hthrows).
  apply (Hthrows sampleReceipt); [by eexists | reflexivity | reflexivity].
Defined.

(** ** The trust-graph writes *)

Lemma write_returning_hash (eth : Ethers) (call : ContractCall)
    (this this' : AgentTrustSDK) (txHash : string) :
  (step _ ← requireSigner "Signer required for write operations";
   step receipt ← transact eth call;
   mreturn (hash receipt)) this = (Returned txHash, this') ↔
  is_Some (signer this) ∧
  ∃ receipt, sendAndWait eth call this = (Some receipt, this') ∧
             txHash = hash receipt.
Proof.
  unfold mthen, requireSigner, transact, mreturn.
  destruct (signer this) as [address|].
  - destruct (sendAndWait eth call this) as [[receipt|] this'']; split.
    + intros [= <- <-]. split; [by eexists|]. by exists receipt.
    + by intros [_ (receipt' & [= <- <-] & ->)].
    + done.
    + by intros [_ (receipt' & [=] & _)].
  - split; [done|]. by intros [[? [=]] _].
Qed.

(** X16: [setTrust], [removeTrust] and [submitAttestation] return a
    transaction hash exactly when the SDK object has a signer and the
    transaction carrying their arguments was mined, and the hash is that of
    its receipt; an attestation without a comment is submitted with the
    empty string as comment. *)
Theorem trust_writes_return_mined_hash (eth : Ethers)
    (this this' : AgentTrustSDK) (txHash : string) :
  (∀ params,
     setTrust eth params this = (Returned txHash, this') ↔
     is_Some (signer this) ∧
     ∃ receipt,
       sendAndWait eth (CallSetTrust (st_toAgent params) (st_trustLevel params))
         this = (Some receipt, this') ∧ txHash = hash receipt) ∧
  (∀ toAgent,
     removeTrust eth toAgent this = (Returned txHash, this') ↔
     is_Some (signer this) ∧
     ∃ receipt,
       sendAndWait eth (CallRemoveTrust toAgent) this = (Some receipt, this') ∧
       txHash = hash receipt) ∧
  (∀ params,
     submitAttestation eth params this = (Returned txHash, this') ↔
     is_Some (signer this) ∧
     ∃ receipt,
       sendAndWait eth
         (CallSubmitAttestation (sa_toAgent params) (sa_namespace params)
            (sa_tag params) (sa_score params) (sa_interactionId params)
            (match sa_comment params with Some text => text | None => "" end))
         this = (Some receipt, this') ∧ txHash = hash receipt).
Proof.
  split; [|split]; intros; apply write_returning_hash.
Qed.

Lemma trust_writes_return_mined_hash_witness :
  submitAttestation sampleEthers
    {| sa_toAgent := 9%Z; sa_namespace := "compute-market.v1";
       sa_tag := "service.quality"; sa_score := Qc_of_Z 95;
       sa_interactionId := "0x01"; sa_comment := None |}
    signingSDK
  = (Returned "0xtx",
     {| trustGraph := trustGraph signingSDK; signer := Some 5%Z; nonce := 4 |}).
Proof.
  apply trust_writes_return_mined_hash.
  split; [by eexists|]. exists sampleReceipt. split; reflexivity.
Defined.

(** * The code over any arithmetic *)

(** ** Plain objects *)

Section Objects.
Context {V : Type}.
Implicit Types (obj : list (string * V)) (k : string) (v : V).

Lemma getProperty_setProperty_eq k v obj :
  Numeric.getProperty k (Numeric.setProperty k v obj) = Some v.
Proof.
  induction obj as [|[k' w] obj IH]; simpl.
  - by rewrite decide_True.
  - destruct (decide (k' = k)) as [->|Hne]; simpl.
    + by rewrite decide_True.
    + by rewrite decide_False.
Qed.

Lemma getProperty_setProperty_ne k k' v obj :
  k ≠ k' →
  Numeric.getProperty k (Numeric.setProperty k' v obj) = Numeric.getProperty k obj.
Proof.
  intros Hne. induction obj as [|[k'' w] obj IH]; simpl.
  - by rewrite decide_False.
  - destruct (decide (k'' = k')) as [->|Hne']; simpl.
    + by rewrite !decide_False.
    + by rewrite IH.
Qed.

Lemma getProperty_None k obj :
  Numeric.getProperty k obj = None ↔ k ∉ obj.*1.
Proof.
  induction obj as [|[k' w] obj IH]; simpl.
  - split; [intros _; apply not_elem_of_nil | done].
  - rewrite not_elem_of_cons. destruct (decide (k' = k)) as [->|Hne].
    + split; [done | by intros [? _]].
    + rewrite IH. split; [by intros ? | by intros [_ ?]].
Qed.

Lemma getProperty_list_to_map k obj :
  Numeric.getProperty k obj = (list_to_map obj : gmap string V) !! k.
Proof.
  induction obj as [|[k' w] obj IH]; simpl; [done|].
  destruct (decide (k' = k)) as [->|Hne].
  - by rewrite lookup_insert_eq.
  - by rewrite lookup_insert_ne.
Qed.

Lemma setProperty_fresh k v obj :
  k ∉ obj.*1 → Numeric.setProperty k v obj = obj ++ [(k, v)].
Proof.
  induction obj as [|[k' w] obj IH]; simpl; [done|].
  rewrite not_elem_of_cons. intros [Hne Hnotin].
  rewrite decide_False by done. by rewrite IH.
Qed.

Lemma keys_setProperty_present k v obj :
  k ∈ obj.*1 → (Numeric.setProperty k v obj).*1 = obj.*1.
Proof.
  induction obj as [|[k' w] obj IH]; simpl.
  - by intros ?%elem_of_nil.
  - destruct (decide (k' = k)) as [->|Hne]; [done|].
    intros [?|Hin]%elem_of_cons; [done|]. simpl. f_equal. by apply IH.
Qed.

Lemma keys_setProperty k v obj :
  (Numeric.setProperty k v obj).*1 =
  if decide (k ∈ obj.*1) then obj.*1 else obj.*1 ++ [k].
Proof.
  case_decide as Hin.
  - by apply keys_setProperty_present.
  - by rewrite setProperty_fresh, fmap_app.
Qed.

End Objects.

Lemma getProperty_fmap {A B : Type} (f : A → B) (k : string)
    (obj : list (string * A)) :
  Numeric.getProperty k ((λ entry, (entry.1, f entry.2)) <$> obj)
  = f <$> Numeric.getProperty k obj.
Proof.
  induction obj as [|[k' a] obj IH]; simpl; [done|].
  by destruct (decide (k' = k)).
Qed.

Lemma setProperty_fold {A B : Type} (f : A → B) (obj : list (string * A))
    (acc : list (string * B)) :
  NoDup (acc.*1 ++ obj.*1) →
  foldl (λ cs entry, Numeric.setProperty entry.1 (f entry.2) cs) acc obj
  = acc ++ ((λ entry, (entry.1, f entry.2)) <$> obj).
Proof.
  revert acc. induction obj as [|[k a] obj IH]; intros acc Hnodup; simpl.
  - by rewrite app_nil_r.
  - simpl in Hnodup.
    assert (k ∉ acc.*1) as Hfresh.
    { apply NoDup_app in Hnodup as (_ & Hdisj & _). intros Hin.
      apply (Hdisj k Hin). by left. }
    rewrite setProperty_fresh by done. rewrite IH.
    + by rewrite <- app_assoc.
    + rewrite fmap_app. simpl. by rewrite <- app_assoc.
Qed.

(** ** The grouping loop *)

Section Grouping.
Context {N : Numeric.Numbers}.
Implicit Types (l : list (Numeric.Attestation N)) (k : string)
  (obj : list (string * list (Numeric.num N))).

Lemma numeric_keyGroup_cons k (a : Numeric.Attestation N) l :
  Numeric.keyGroup k (a :: l) =
  if decide (Numeric.key a = k)
  then Numeric.score a :: Numeric.keyGroup k l
  else Numeric.keyGroup k l.
Proof. unfold Numeric.keyGroup. rewrite filter_cons. by case_decide. Qed.

Lemma numeric_keyGroup_app k l1 l2 :
  Numeric.keyGroup k (l1 ++ l2) = Numeric.keyGroup k l1 ++ Numeric.keyGroup k l2.
Proof. unfold Numeric.keyGroup. by rewrite filter_app, fmap_app. Qed.

Lemma numeric_keyGroup_perm k l1 l2 :
  l1 ≡ₚ l2 → Numeric.keyGroup k l1 ≡ₚ Numeric.keyGroup k l2.
Proof. intros Hp. unfold Numeric.keyGroup. by rewrite Hp. Qed.

Lemma numeric_keyGroup_nil_iff k l :
  Numeric.keyGroup k l = [] ↔ ∀ a, a ∈ l → Numeric.key a ≠ k.
Proof.
  unfold Numeric.keyGroup. split.
  - intros Hnil a Ha Hk. apply fmap_nil_inv in Hnil.
    by apply (filter_nil_not_elem_of _ _ a Hnil Hk).
  - intros Hno. apply fmap_nil_of_nil, elem_of_nil_inv. intros a Ha.
    apply list_elem_of_filter in Ha as [Hk Ha]. by apply (Hno a).
Qed.

Lemma numeric_groupStep_get obj (a : Numeric.Attestation N) k :
  Numeric.getProperty k (Numeric.groupStep obj a) =
  if decide (Numeric.key a = k)
  then Some (default [] (Numeric.getProperty k obj) ++ [Numeric.score a])
  else Numeric.getProperty k obj.
Proof.
  unfold Numeric.groupStep.
  destruct (Numeric.getProperty (Numeric.key a) obj) as [scores|] eqn:Hget.
  - rewrite Hget. case_decide as Hk.
    + subst k. by rewrite getProperty_setProperty_eq, Hget.
    + by rewrite getProperty_setProperty_ne.
  - rewrite getProperty_setProperty_eq. case_decide as Hk.
    + subst k. by rewrite getProperty_setProperty_eq, Hget.
    + by rewrite !getProperty_setProperty_ne.
Qed.

Lemma numeric_groupStep_keys obj (a : Numeric.Attestation N) :
  (Numeric.groupStep obj a).*1 =
  if decide (Numeric.key a ∈ obj.*1) then obj.*1 else obj.*1 ++ [Numeric.key a].
Proof.
  unfold Numeric.groupStep.
  destruct (Numeric.getProperty (Numeric.key a) obj) as [scores|] eqn:Hget.
  - rewrite Hget. assert (Numeric.key a ∈ obj.*1) as Hin.
    { destruct (decide (Numeric.key a ∈ obj.*1)) as [|Hno]; [done|].
      apply getProperty_None in Hno. congruence. }
    rewrite decide_True by done. by apply keys_setProperty_present.
  - apply getProperty_None in Hget as Hno.
    rewrite getProperty_setProperty_eq, decide_False by done.
    rewrite keys_setProperty_present.
    + by rewrite setProperty_fresh, fmap_app.
    + rewrite setProperty_fresh, fmap_app by done.
      apply elem_of_app. right. by left.
Qed.

Lemma numeric_foldl_groupStep_get l obj k :
  Numeric.getProperty k (foldl Numeric.groupStep obj l) =
  match Numeric.keyGroup k l with
  | [] => Numeric.getProperty k obj
  | g => Some (default [] (Numeric.getProperty k obj) ++ g)
  end.
Proof.
  revert obj. induction l as [|a l IH]; intros obj; [done|].
  simpl foldl. rewrite IH, numeric_keyGroup_cons, numeric_groupStep_get.
  case_decide as Hk; [|done].
  simpl default. destruct (Numeric.keyGroup k l) as [|x g].
  - done.
  - by rewrite <- app_assoc.
Qed.

Lemma numeric_groups_get l k :
  Numeric.getProperty k (Numeric.groups l) =
  match Numeric.keyGroup k l with
  | [] => None
  | g => Some g
  end.
Proof.
  unfold Numeric.groups. rewrite numeric_foldl_groupStep_get. simpl.
  by destruct (Numeric.keyGroup k l).
Qed.

Lemma numeric_foldl_groupStep_keys l obj :
  (foldl Numeric.groupStep obj l).*1 =
  obj.*1 ++ filter (λ k, k ∉ obj.*1)
              (Numeric.firstOccurrences (Numeric.key <$> l)).
Proof.
  revert obj. induction l as [|a l IH]; intros obj.
  - simpl. by rewrite app_nil_r.
  - simpl foldl. rewrite IH, numeric_groupStep_keys.
    change (Numeric.firstOccurrences (Numeric.key <$> a :: l))
      with (Numeric.key a
            :: filter (λ k', k' ≠ Numeric.key a)
                 (Numeric.firstOccurrences (Numeric.key <$> l))).
    rewrite filter_cons.
    destruct (decide (Numeric.key a ∈ obj.*1)) as [Hin|Hno].
    + rewrite decide_False by (by intros ?). f_equal.
      rewrite list_filter_filter. apply list_filter_iff. intros k. split.
      * intros Hk. split; [done|]. by intros ->.
      * by intros [? _].
    + rewrite decide_True by done. rewrite <- app_assoc. simpl. do 2 f_equal.
      rewrite list_filter_filter. apply list_filter_iff. intros k.
      rewrite not_elem_of_app, list_elem_of_singleton. tauto.
Qed.

Lemma numeric_groups_keys l :
  (Numeric.groups l).*1 = Numeric.firstOccurrences (Numeric.key <$> l).
Proof.
  unfold Numeric.groups. rewrite numeric_foldl_groupStep_keys. simpl.
  apply filter_all. intros k. apply not_elem_of_nil.
Qed.

Lemma firstOccurrences_spec (keys : list string) :
  NoDup (Numeric.firstOccurrences keys) ∧
  ∀ k, k ∈ Numeric.firstOccurrences keys ↔ k ∈ keys.
Proof.
  induction keys as [|k keys [IHnodup IHin]]; simpl.
  - split; [constructor | done].
  - split.
    + constructor.
      * rewrite list_elem_of_filter. by intros [? _].
      * by apply NoDup_filter.
    + intros k'. rewrite !elem_of_cons, list_elem_of_filter, IHin.
      destruct (decide (k' = k)) as [->|Hne]; [tauto|]. tauto.
Qed.

Lemma numeric_groups_nodup l : NoDup (Numeric.groups l).*1.
Proof. rewrite numeric_groups_keys. apply firstOccurrences_spec. Qed.

(** The second loop keeps the keys in their order and replaces each group
    by its average. *)
Lemma numeric_categoryScores_groups l :
  Numeric.categoryScores (Numeric.groups l) =
  (λ entry, (entry.1, Numeric.average entry.2)) <$> Numeric.groups l.
Proof.
  unfold Numeric.categoryScores.
  rewrite (setProperty_fold Numeric.average); [done|].
  simpl. apply numeric_groups_nodup.
Qed.

Lemma numeric_keys_of_entries l :
  (Numeric.categoryScores (Numeric.groups l)).*1
  = Numeric.firstOccurrences (Numeric.key <$> l).
Proof.
  rewrite numeric_categoryScores_groups, <- list_fmap_compose.
  rewrite <- numeric_groups_keys. by apply list_fmap_ext.
Qed.

Lemma numeric_entries_get l k :
  Numeric.getProperty k (Numeric.categoryScores (Numeric.groups l)) =
  match Numeric.keyGroup k l with
  | [] => None
  | g => Some (Numeric.average g)
  end.
Proof.
  rewrite numeric_categoryScores_groups, getProperty_fmap, numeric_groups_get.
  by destruct (Numeric.keyGroup k l).
Qed.

End Grouping.

(** ** Exact arithmetic: the first model *)

Lemma typed_filter (field : Numeric.Attestation Numeric.exact → string)
    (field' : Attestation → string) (wanted : string)
    (l : list (Numeric.Attestation Numeric.exact)) :
  (∀ a, field' (typed a) = field a) →
  typed <$> filter (λ a, field a = wanted) l
  = filter (λ b, field' b = wanted) (typed <$> l).
Proof.
  intros Hfield. induction l as [|a l IH]; [done|].
  rewrite fmap_cons, !filter_cons, Hfield.
  destruct (decide (field a = wanted)).
  - rewrite fmap_cons. f_equal. exact IH.
  - exact IH.
Qed.

Lemma typed_filterStep (field : Numeric.Attestation Numeric.exact → string)
    (field' : Attestation → string) (cond : option string)
    (l : list (Numeric.Attestation Numeric.exact)) :
  (∀ a, field' (typed a) = field a) →
  typed <$> Numeric.filterStep field cond l
  = Aggregate.filterStep field' cond (typed <$> l).
Proof.
  intros Hfield. unfold Numeric.filterStep, Aggregate.filterStep.
  destruct cond as [wanted|]; [|done].
  destruct (truthy (Some wanted)); [|done]. by apply typed_filter.
Qed.

Lemma typed_filteredAttestations (l : list (Numeric.Attestation Numeric.exact))
    (query : option Query.t) :
  typed <$> Numeric.filteredAttestations l query
  = Aggregate.filteredAttestations (typed <$> l) query.
Proof.
  unfold Numeric.filteredAttestations, Aggregate.filteredAttestations.
  by rewrite (typed_filterStep _ tag), (typed_filterStep _ namespace).
Qed.

Lemma typed_keyGroup (k : string) (l : list (Numeric.Attestation Numeric.exact)) :
  Numeric.keyGroup k l = keyGroup k (typed <$> l).
Proof.
  unfold Numeric.keyGroup, keyGroup.
  rewrite <- (typed_filter Numeric.key Aggregate.key) by done.
  rewrite <- list_fmap_compose. by apply list_fmap_ext.
Qed.

(** At [exact], the code over insertion-ordered objects computes the report
    of the first model: the same entries under the same keys, the same
    [overall], the same other fields. *)
Lemma exact_report (l : list (Numeric.Attestation Numeric.exact))
    (query : option Query.t) :
  let report := Numeric.weightedReputationOf l query in
  let report' := weightedReputationOf (typed <$> l) query in
  (∀ k, Numeric.getProperty k (Numeric.byCategory report)
        = byCategory report' !! k) ∧
  Numeric.overall report = overall report' ∧
  Numeric.decayFactor report = decayFactor report' ∧
  Numeric.riskLevel report = riskLevel report' ∧
  Numeric.suspicionScore report = suspicionScore report' ∧
  Numeric.totalAttestations report = totalAttestations report'.
Proof.
  intros report report'.
  assert (Numeric.byCategory report
          = Numeric.categoryScores
              (Numeric.groups (Numeric.filteredAttestations l query)))
    as Hentries by done.
  assert (∀ k, Numeric.getProperty k (Numeric.byCategory report)
               = byCategory report' !! k) as Hget.
  { intros k. rewrite Hentries. unfold report'.
    rewrite numeric_entries_get, report_byCategory_lookup.
    rewrite <- typed_filteredAttestations, <- typed_keyGroup.
    destruct (Numeric.keyGroup k _) as [|x g]; [done|].
    f_equal. apply (average_arithmeticMean (x :: g)). }
  assert (NoDup (Numeric.byCategory report).*1) as Hnodup.
  { rewrite Hentries, numeric_keys_of_entries. apply firstOccurrences_spec. }
  split; [done|]. split; [|repeat split].
  - pose proof (report_overall_enumeration (typed <$> l) query
                  (Numeric.byCategory report)) as Henum.
    cbv zeta in Henum. fold report' in Henum. rewrite Henum.
    + apply (overall_meanOrZero (Numeric.byCategory report).*2).
    + exact Hnodup.
    + apply map_eq. intros k. by rewrite <- getProperty_list_to_map.
  - simpl. unfold Numeric.riskLevelOf, Aggregate.riskLevel.
    by rewrite length_fmap.
  - simpl. by rewrite length_fmap.
Qed.

(** ** Entries by key *)

Lemma filter_not_in_nil (l L : list string) :
  (∀ k, k ∈ l → k ∈ L) → filter (λ k, k ∉ L) l = [].
Proof.
  induction l as [|k l IH]; intros Hin; [done|].
  rewrite filter_cons_False; [|intros Hk; apply Hk, Hin; by left].
  apply IH. intros k' Hk'. apply Hin. by right.
Qed.

Lemma object_of_keys {V : Type} (f : string → V) (obj : list (string * V)) :
  NoDup obj.*1 →
  (∀ k v, Numeric.getProperty k obj = Some v → v = f k) →
  obj = (λ k, (k, f k)) <$> obj.*1.
Proof.
  induction obj as [|[k v] obj IH]; intros Hnodup Hget; [done|].
  change (NoDup (k :: obj.*1)) in Hnodup.
  apply NoDup_cons in Hnodup as [Hk Hnodup].
  change (((k, v) :: obj).*1) with (k :: obj.*1). rewrite fmap_cons. f_equal.
  - f_equal. apply Hget. simpl. by rewrite decide_True.
  - apply IH; [done|]. intros k' v' Hk'. apply Hget. simpl.
    rewrite decide_False; [done|]. intros ->.
    apply getProperty_None in Hk. congruence.
Qed.

Lemma numeric_filteredAttestations_app {N : Numeric.Numbers}
    (l1 l2 : list (Numeric.Attestation N)) (query : option Query.t) :
  Numeric.filteredAttestations (l1 ++ l2) query =
  Numeric.filteredAttestations l1 query ++ Numeric.filteredAttestations l2 query.
Proof.
  unfold Numeric.filteredAttestations, Numeric.filterStep.
  destruct (optChain query Query.namespace) as [ns|];
    destruct (optChain query Query.tag) as [tg|];
    repeat match goal with |- context [truthy ?c] => destruct (truthy c) end;
    by rewrite ?filter_app.
Qed.

Lemma numeric_entries_of_keys {N : Numeric.Numbers}
    (l : list (Numeric.Attestation N)) :
  Numeric.categoryScores (Numeric.groups l) =
  (λ k, (k, Numeric.average (Numeric.keyGroup k l)))
    <$> Numeric.firstOccurrences (Numeric.key <$> l).
Proof.
  rewrite <- numeric_keys_of_entries. apply object_of_keys.
  - rewrite numeric_keys_of_entries. apply firstOccurrences_spec.
  - intros k v. rewrite numeric_entries_get.
    destruct (Numeric.keyGroup k l); [done|]. by intros [= <-].
Qed.

(** ** Signs in binary64 *)

Lemma le64_zero (x : float) : le64 0 x ↔ nonnegative (Prim2SF x).
Proof.
  unfold le64. rewrite leb_spec.
  change (Prim2SF 0) with (S754_zero false).
  destruct (Prim2SF x) as [s|s| |s m e]; simpl; try destruct s; split; done.
Qed.

Section Rounding.
Variables prec emax : Z.

Lemma shr_1_nonneg mrs : (0 ≤ shr_m mrs)%Z → (0 ≤ shr_m (shr_1 mrs))%Z.
Proof. destruct mrs as [[|[p|p|]|p] r s]; simpl; lia. Qed.

Lemma iter_pos_shr_1_nonneg (p : positive) mrs :
  (0 ≤ shr_m mrs)%Z → (0 ≤ shr_m (SpecFloat.iter_pos shr_1 p mrs))%Z.
Proof.
  revert mrs. induction p as [p IH|p IH|]; intros mrs Hm; simpl.
  - by apply IH, IH, shr_1_nonneg.
  - by apply IH, IH.
  - by apply shr_1_nonneg.
Qed.

Lemma shr_fexp_nonneg (m e : Z) (l : location) :
  (0 ≤ m)%Z → (0 ≤ shr_m (shr_fexp prec emax m e l).1)%Z.
Proof.
  intros Hm. unfold shr_fexp, shr.
  assert (0 ≤ shr_m (shr_record_of_loc m l))%Z as Hrec
    by (by destruct l as [|[]]).
  destruct (_ - e)%Z; simpl; [done| |done].
  by apply iter_pos_shr_1_nonneg.
Qed.

Lemma round_nearest_even_nonneg (m : Z) (l : location) :
  (0 ≤ m)%Z → (0 ≤ round_nearest_even m l)%Z.
Proof.
  intros Hm. destruct l as [|[]]; simpl; try lia. destruct (Z.even m); lia.
Qed.

(** Rounding keeps the sign it is given. *)
Lemma binary_round_aux_sign (s : bool) (m e : Z) (l : location) :
  (0 ≤ m)%Z →
  match binary_round_aux prec emax s m e l with
  | S754_zero s' | S754_infinity s' | S754_finite s' _ _ => s' = s
  | S754_nan => False
  end.
Proof.
  intros Hm. unfold binary_round_aux.
  pose proof (shr_fexp_nonneg m e l Hm) as H1.
  destruct (shr_fexp prec emax m e l) as [mrs' e'].
  pose proof (shr_fexp_nonneg
                (round_nearest_even (shr_m mrs') (loc_of_shr_record mrs')) e'
                loc_Exact (round_nearest_even_nonneg _ _ H1)) as H2.
  destruct (shr_fexp prec emax _ e' loc_Exact) as [mrs'' e''].
  simpl in H2. destruct (shr_m mrs''); [done| |lia].
  by destruct (_ <=? _)%Z.
Qed.

Lemma binary_round_aux_nonnegative (m e : Z) (l : location) :
  (0 ≤ m)%Z → nonnegative (binary_round_aux prec emax false m e l).
Proof.
  intros Hm. pose proof (binary_round_aux_sign false m e l Hm) as Hs.
  by destruct (binary_round_aux prec emax false m e l).
Qed.

Lemma binary_round_nonnegative (m : positive) (e : Z) :
  nonnegative (binary_round prec emax false m e).
Proof.
  unfold binary_round. destruct (shl_align _ _ _) as [mz ez].
  by apply binary_round_aux_nonnegative.
Qed.

Lemma SFadd_nonnegative (x y : spec_float) :
  nonnegative x → nonnegative y → nonnegative (SFadd prec emax x y).
Proof.
  destruct x as [sx|sx| |sx mx ex], y as [sy|sy| |sy my ey]; simpl;
    try done; try (intros -> ->; done); try (by destruct sx, sy).
  intros -> ->. simpl. apply binary_round_nonnegative.
Qed.

Lemma SFdiv_nonnegative (x y : spec_float) :
  nonnegative x → positiveFinite y → nonnegative (SFdiv prec emax x y).
Proof.
  destruct y as [sy|sy| |[] my ey]; try done. intros Hx _.
  destruct x as [sx|sx| |sx mx ex]; simpl in *; try done.
  { by subst. }
  subst sx. simpl.
  destruct (SFdiv_core_binary prec emax (Z.pos mx) ex (Z.pos my) ey)
    as [[mz ez] lz] eqn:Hcore.
  apply binary_round_aux_nonnegative.
  unfold SFdiv_core_binary in Hcore.
  set (m' := match (_ - _ - _)%Z with
             | Z0 => Z.pos mx | Z.pos _ => _ | Z.neg _ => 0%Z end) in Hcore.
  assert (0 ≤ m')%Z as Hm'.
  { unfold m'. destruct (_ - _ - _)%Z; [lia| |lia].
    apply Z.shiftl_nonneg. lia. }
  pose proof (Z.div_pos m' (Z.pos my) Hm' ltac:(lia)) as Hq.
  unfold Z.div in Hq. destruct (Z.div_eucl m' (Z.pos my)) as [q r].
  by injection Hcore as <- _ _.
Qed.

End Rounding.

Lemma digits2_pos_iter_xO (p k : positive) :
  digits2_pos (Pos.iter xO p k) = (digits2_pos p + k)%positive.
Proof.
  induction k as [|k IH] using Pos.peano_ind.
  - simpl. lia.
  - rewrite Pos.iter_succ. simpl. rewrite IH. lia.
Qed.

Lemma digits2_pos_bound (p : positive) (k : Z) :
  (0 ≤ k)%Z → (Z.pos p < 2 ^ k)%Z → (Z.pos (digits2_pos p) ≤ k)%Z.
Proof.
  revert k. induction p as [p IH|p IH|]; intros k Hk Hp; simpl.
  - assert (k ≠ 0)%Z by (intros ->; simpl in Hp; lia).
    replace k with (Z.succ (k - 1)) in Hp by lia.
    rewrite Z.pow_succ_r in Hp by lia.
    specialize (IH (k - 1)%Z). lia.
  - assert (k ≠ 0)%Z by (intros ->; simpl in Hp; lia).
    replace k with (Z.succ (k - 1)) in Hp by lia.
    rewrite Z.pow_succ_r in Hp by lia.
    specialize (IH (k - 1)%Z). lia.
  - assert (k ≠ 0)%Z by (intros ->; simpl in Hp; lia). lia.
Qed.

(** A mantissa that has its canonical exponent is not rounded. *)
Lemma binary_round_aux_canonical (s : bool) (m : positive) (e : Z) :
  fexp prec emax (Z.pos (digits2_pos m) + e) = e →
  (e ≤ emax - prec)%Z →
  binary_round_aux prec emax s (Z.pos m) e loc_Exact = S754_finite s m e.
Proof.
  intros Hcanonical He. unfold binary_round_aux, shr_fexp.
  change (Zdigits2 (Z.pos m)) with (Z.pos (digits2_pos m)).
  rewrite Hcanonical, Z.sub_diag. simpl.
  rewrite Hcanonical, Z.sub_diag. simpl.
  by rewrite (Zle_imp_le_bool _ _ He).
Qed.

(** The length of a non-empty array of fewer than 2^53 elements is a finite
    double above zero. *)
Lemma ofLength_positiveFinite (n : nat) :
  0 < n → (Z.of_nat n < 2 ^ 53)%Z →
  positiveFinite (Prim2SF (Numeric.ofLength Numeric.binary64 n)).
Proof.
  intros Hpos Hsmall. simpl. rewrite of_uint63_spec, Uint63.of_Z_spec.
  rewrite Z.mod_small by (split; [lia|]; change wB with (2 ^ 63)%Z; lia).
  destruct (Z.of_nat n) as [|p|p] eqn:Hn; [lia| |lia].
  simpl. unfold binary_round.
  pose proof (digits2_pos_bound p 53 ltac:(lia) Hsmall) as Hdigits.
  set (d := digits2_pos p) in *.
  assert (fexp prec emax (Z.pos d + 0) = Z.pos d - 53)%Z as Hfexp.
  { unfold fexp, emin. change prec with 53%Z. change emax with 1024%Z. lia. }
  rewrite Hfexp. unfold shl_align.
  destruct (Z.pos d - 53 - 0)%Z as [|k|k] eqn:Hshift; [|lia|].
  - rewrite binary_round_aux_canonical; [done| |change (0 ≤ 971)%Z; lia].
    fold d. rewrite Hfexp. lia.
  - rewrite binary_round_aux_canonical; [done| |change emax with 1024%Z;
                                               change prec with 53%Z; lia].
    rewrite digits2_pos_iter_xO. fold d.
    unfold fexp, emin. change prec with 53%Z. change emax with 1024%Z. lia.
Qed.

Lemma reduceSum_nonnegative (scores : list float) :
  Forall (le64 0) scores →
  le64 0 (Numeric.reduceSum (N := Numeric.binary64) scores).
Proof.
  unfold Numeric.reduceSum. simpl.
  assert (∀ acc, le64 0 acc → Forall (le64 0) scores →
                 le64 0 (foldl PrimFloat.add acc scores)) as Hfold.
  { induction scores as [|x scores IH]; intros acc Hacc Hall; [exact Hacc|].
    apply Forall_cons in Hall as [Hx Hall]. simpl. apply IH; [|exact Hall].
    apply le64_zero. rewrite add_spec.
    apply SFadd_nonnegative; by apply le64_zero. }
  apply Hfold. reflexivity.
Qed.

Lemma average_nonnegative (scores : list float) :
  scores ≠ [] → (Z.of_nat (length scores) < 2 ^ 53)%Z →
  Forall (le64 0) scores →
  le64 0 (Numeric.average (N := Numeric.binary64) scores).
Proof.
  intros Hne Hsmall Hall. unfold Numeric.average.
  change (Numeric.quot Numeric.binary64) with PrimFloat.div.
  apply le64_zero. rewrite div_spec. apply SFdiv_nonnegative.
  - apply le64_zero. by apply reduceSum_nonnegative.
  - apply ofLength_positiveFinite; [|exact Hsmall].
    destruct scores; [by destruct Hne | simpl; lia].
Qed.

(** ** Binary64 and exact arithmetic compared *)

Lemma getProperty_value {V} (k : string) (v : V) (obj : list (string * V)) :
  Numeric.getProperty k obj = Some v → v ∈ obj.*2.
Proof.
  induction obj as [|[k' w] obj IH]; simpl; [done|].
  destruct (decide (k' = k)).
  - intros [= ->]. by left.
  - intros Hget. right. by apply IH.
Qed.

Lemma numeric_filteredAttestations_perm {N : Numeric.Numbers}
    (l l' : list (Numeric.Attestation N)) (query : option Query.t) :
  l ≡ₚ l' →
  Numeric.filteredAttestations l query ≡ₚ Numeric.filteredAttestations l' query.
Proof.
  intros Hp. unfold Numeric.filteredAttestations, Numeric.filterStep.
  destruct (optChain query Query.namespace) as [ns|];
    destruct (optChain query Query.tag) as [tg|];
    repeat match goal with |- context [truthy ?c] => destruct (truthy c) end;
    by rewrite Hp.
Qed.

(** C6, as stated, fails in the arithmetic of the code: three categories
    with the scores 1, 0, 0, 0, 0 each have the entry 0.2 (the nearest
    double), and [overall] is 0.20000000000000004, above every entry. *)
Lemma overall_exceeds_greatest_in_binary64 :
  let report := Numeric.weightedReputationOf threeFifths None in
  Numeric.byCategory report = [("a:x", fifth); ("a:y", fifth); ("a:z", fifth)] ∧
  Numeric.overall report = 0x1.999999999999bp-3%float ∧
  PrimFloat.ltb fifth (Numeric.overall report) = true ∧
  ¬ boundedByGreatest (N := Numeric.binary64) le64 threeFifths None.
Proof.
  intros report.
  assert (Numeric.byCategory report
          = [("a:x", fifth); ("a:y", fifth); ("a:z", fifth)]) as Hentries
    by (vm_compute; reflexivity).
  assert (Numeric.overall report = 0x1.999999999999bp-3%float) as Hoverall
    by (vm_compute; reflexivity).
  split; [done|]. split; [done|]. split; [by rewrite Hoverall|].
  intros Hbounded. unfold boundedByGreatest in Hbounded. cbv zeta in Hbounded.
  destruct Hbounded as [_ (k & greatest & Hk & _ & Hle)].
  { discriminate. }
  fold report in Hk, Hle. rewrite Hentries in Hk. rewrite Hoverall in Hle.
  apply getProperty_value in Hk. simpl in Hk.
  assert (greatest = fifth) as Hgreatest.
  { repeat (apply elem_of_cons in Hk as [Hk|Hk]; [exact Hk|]).
    apply elem_of_nil in Hk. destruct Hk. }
  rewrite Hgreatest in Hle. unfold le64 in Hle. vm_compute in Hle.
  discriminate Hle.
Qed.

Lemma numeric_filteredAttestations_sublist {N : Numeric.Numbers}
    (l : list (Numeric.Attestation N)) (query : option Query.t) :
  Numeric.filteredAttestations l query `sublist_of` l.
Proof.
  unfold Numeric.filteredAttestations, Numeric.filterStep.
  destruct (optChain query Query.namespace) as [ns|];
    destruct (optChain query Query.tag) as [tg|];
    repeat match goal with |- context [truthy ?c] => destruct (truthy c) end;
    try reflexivity; try apply sublist_filter.
  etrans; apply sublist_filter.
Qed.

Lemma length_firstOccurrences (keys : list string) :
  length (Numeric.firstOccurrences keys) ≤ length keys.
Proof.
  induction keys as [|k keys IH]; simpl; [done|].
  pose proof (length_filter (λ k', k' ≠ k) (Numeric.firstOccurrences keys)). lia.
Qed.

Lemma le64_infinity (x : float) : le64 0 x → le64 x infinity.
Proof.
  intros Hx. apply le64_zero in Hx. unfold le64. rewrite leb_spec.
  change (Prim2SF infinity) with (S754_infinity false).
  destruct (Prim2SF x) as [s|s| |s m e]; simpl in *; by subst.
Qed.

(** In binary64: when no score is below zero, neither is an entry of
    [byCategory] nor [overall].  A sum of doubles that are not below zero is
    not below zero, and neither is its quotient by a length. *)
Lemma nonnegative_in_binary64
    (attestations : list (Numeric.Attestation Numeric.binary64))
    (query : option Query.t) :
  let report := Numeric.weightedReputationOf attestations query in
  (Z.of_nat (length attestations) < 2 ^ 53)%Z →
  Forall (λ a : Numeric.Attestation Numeric.binary64,
            le64 0 (Numeric.score a)) attestations →
  (∀ k v, Numeric.getProperty k (Numeric.byCategory report) = Some v →
          le64 0 v) ∧
  le64 0 (Numeric.overall report).
Proof.
  intros report Hlength Hscores.
  pose proof (numeric_filteredAttestations_sublist attestations query) as Hsub.
  set (surviving := Numeric.filteredAttestations attestations query) in *.
  pose proof (sublist_length _ _ Hsub) as Hshorter.
  assert (∀ a, a ∈ surviving → le64 0 (Numeric.score a)) as Hsurviving.
  { intros a Ha. apply (proj1 (Forall_forall _ _) Hscores).
    by apply (elem_of_sublist surviving). }
  set (entry := λ k : string,
         Numeric.average (N := Numeric.binary64) (Numeric.keyGroup k surviving)).
  assert (∀ k, Numeric.keyGroup k surviving ≠ [] → le64 0 (entry k)) as Hentry.
  { intros k Hgroup. unfold entry. apply average_nonnegative; [exact Hgroup| |].
    - unfold Numeric.keyGroup. rewrite length_fmap.
      pose proof (length_filter (λ a, Numeric.key a = k) surviving). lia.
    - unfold Numeric.keyGroup. apply Forall_fmap, Forall_forall. intros a Ha.
      apply list_elem_of_filter in Ha as [_ Ha]. by apply Hsurviving. }
  split.
  - intros k v.
    change (Numeric.byCategory report)
      with (Numeric.categoryScores (Numeric.groups surviving)).
    rewrite numeric_entries_get.
    pose proof (Hentry k) as Hk. unfold entry in Hk.
    destruct (Numeric.keyGroup k surviving) as [|x g]; [discriminate|].
    intros [= <-]. apply Hk. discriminate.
  - change (Numeric.overall report)
      with (Numeric.overallOf
              (Numeric.allScores
                 (Numeric.categoryScores (Numeric.groups surviving)))).
    rewrite numeric_entries_of_keys. unfold Numeric.allScores.
    rewrite <- list_fmap_compose.
    set (keys := Numeric.firstOccurrences (Numeric.key <$> surviving)).
    change (snd ∘ _) with entry.
    unfold Numeric.overallOf.
    destruct (0 <? length (entry <$> keys)) eqn:Hentries; [|reflexivity].
    apply Nat.ltb_lt in Hentries.
    apply (average_nonnegative (entry <$> keys)).
    + intros Hnil. rewrite Hnil in Hentries. simpl in Hentries. lia.
    + rewrite length_fmap.
      pose proof (length_firstOccurrences (Numeric.key <$> surviving)) as Hkeys.
      rewrite length_fmap in Hkeys. fold keys in Hkeys. lia.
    + apply Forall_fmap, Forall_forall. intros k Hk. apply Hentry.
      intros Hnil.
      pose proof (proj1 (numeric_keyGroup_nil_iff (N := Numeric.binary64)
                           k surviving) Hnil) as Hnone.
      apply (proj1 (proj2 (firstOccurrences_spec (Numeric.key <$> surviving)) k))
        in Hk.
      apply list_elem_of_fmap in Hk as (a & -> & Ha). by apply (Hnone a).
Qed.

(** With the sums and the quotients taken exactly, [overall] is at most the
    greatest entry, and not below zero if no score is. *)
Lemma exact_bounded_by_greatest
    (attestations : list (Numeric.Attestation Numeric.exact))
    (query : option Query.t) :
  boundedByGreatest (N := Numeric.exact) Qcle attestations query.
Proof.
  unfold boundedByGreatest. cbv zeta. intros Hsurv.
  destruct (exact_report attestations query) as (Hget & Hoverall & _).
  set (report := Numeric.weightedReputationOf attestations query) in *.
  assert (Aggregate.filteredAttestations (typed <$> attestations) query ≠ [])
    as Hsurv'.
  { rewrite <- typed_filteredAttestations. intros E.
    by apply fmap_nil_inv in E. }
  destruct (overall_nonneg_and_at_most_greatest _ _ Hsurv')
    as [Hpos (k & greatest & Hk & Hmax & Hle)].
  split.
  - intros Hscores. rewrite Hoverall. apply Hpos.
    apply Forall_fmap. eapply Forall_impl; [exact Hscores|]. done.
  - exists k, greatest. rewrite Hget, Hoverall. split; [done|]. split; [|done].
    intros k' v. rewrite Hget. apply Hmax.
Qed.

(** C6, amended.  In the arithmetic of the code (binary64), for a list of
    fewer than 2^53 attestations (an array has fewer than 2^32 elements):
    [overall] is not below zero if no score is.  With the sums and the
    quotients taken exactly, when at least one attestation survives the
    filter: [overall] is not below zero if no score is, and [overall] is at
    most the greatest entry of [byCategory]. *)
Theorem nonnegative_and_bounded_by_greatest :
  (∀ (attestations : list (Numeric.Attestation Numeric.binary64))
     (query : option Query.t),
     (Z.of_nat (length attestations) < 2 ^ 53)%Z →
     Forall (λ a : Numeric.Attestation Numeric.binary64,
            le64 0 (Numeric.score a)) attestations →
     le64 0 (Numeric.overall (Numeric.weightedReputationOf attestations query))) ∧
  (∀ (attestations : list (Numeric.Attestation Numeric.exact))
     (query : option Query.t),
     boundedByGreatest (N := Numeric.exact) Qcle attestations query).
Proof.
  split.
  - intros attestations query Hlength Hscores.
    by apply (nonnegative_in_binary64 attestations query).
  - apply exact_bounded_by_greatest.
Qed.

Lemma nonnegative_and_bounded_by_greatest_witness :
  le64 0 (Numeric.overall (Numeric.weightedReputationOf threeFifths None)) ∧
  (0 ≤ Numeric.overall (Numeric.weightedReputationOf exactExample None))%Qc ∧
  ∃ k greatest,
    Numeric.getProperty k
      (Numeric.byCategory (Numeric.weightedReputationOf exactExample None))
    = Some greatest ∧
    (Numeric.overall (Numeric.weightedReputationOf exactExample None)
     ≤ greatest)%Qc.
Proof.
  destruct nonnegative_and_bounded_by_greatest as [Hbinary64 Hexact].
  split.
  - apply Hbinary64; [vm_compute; reflexivity|].
    repeat constructor; vm_compute; reflexivity.
  - destruct (Hexact exactExample None)
      as [Hpos (k & greatest & Hk & _ & Hle)].
    + discriminate.
    + split.
      * apply Hpos. repeat constructor; by_evaluation.
      * by exists k, greatest.
Defined.

(** C7, as stated, fails in the arithmetic of the code: the entries are
    summed in the order in which their keys first occur, and
    (1 + 1) + 1/3 and (1/3 + 1) + 1 round apart. *)
Lemma order_changes_overall_in_binary64 :
  thirdLast ≡ₚ thirdFirst ∧
  Numeric.overall (Numeric.weightedReputationOf thirdLast None)
    = 0x1.8e38e38e38e39p-1%float ∧
  Numeric.overall (Numeric.weightedReputationOf thirdFirst None)
    = 0x1.8e38e38e38e38p-1%float ∧
  ¬ sameReport (Numeric.weightedReputationOf thirdLast None)
      (Numeric.weightedReputationOf thirdFirst None).
Proof.
  assert (Numeric.overall (Numeric.weightedReputationOf thirdLast None)
          = 0x1.8e38e38e38e39p-1%float) as Hlast by (vm_compute; reflexivity).
  assert (Numeric.overall (Numeric.weightedReputationOf thirdFirst None)
          = 0x1.8e38e38e38e38p-1%float) as Hfirst by (vm_compute; reflexivity).
  split; [|split; [done|split; [done|]]].
  - apply (Permutation_app_comm
             [att64 "a" "x" 1; att64 "a" "y" 1]
             [att64 "a" "z" 1; att64 "a" "z" 0; att64 "a" "z" 0]).
  - intros [Hsame _]. rewrite Hlast, Hfirst in Hsame.
    apply (f_equal (λ v, PrimFloat.eqb v 0x1.8e38e38e38e39p-1%float)) in Hsame.
    vm_compute in Hsame. discriminate.
Qed.

(** C7, amended: in any arithmetic, two lists that are permutations of one
    another give reports with the same [totalAttestations], [riskLevel],
    [decayFactor] and [suspicionScore] and the same keys in [byCategory],
    and under each key the entry is the average of the same scores, taken
    in a possibly different order; with the sums and the quotients taken
    exactly the two reports are the same, [byCategory] compared as a
    mapping. *)
Theorem same_report_up_to_order_of_sums :
  (∀ (N : Numeric.Numbers) (attestations attestations' : list (Numeric.Attestation N))
     (query : option Query.t),
     attestations ≡ₚ attestations' →
     sameUpToOrder attestations attestations' query) ∧
  (∀ (attestations attestations' : list (Numeric.Attestation Numeric.exact))
     (query : option Query.t),
     attestations ≡ₚ attestations' →
     sameReport (Numeric.weightedReputationOf attestations query)
       (Numeric.weightedReputationOf attestations' query)).
Proof.
  split.
  - intros N l l' query Hp.
    pose proof (numeric_filteredAttestations_perm l l' query Hp) as Hsurv.
    unfold sameUpToOrder. cbv zeta.
    split; [simpl; by rewrite (Permutation_length Hp)|].
    split; [simpl; unfold Numeric.riskLevelOf; by rewrite (Permutation_length Hp)|].
    split; [done|]. split; [done|]. split.
    + simpl Numeric.byCategory. rewrite !numeric_keys_of_entries.
      apply NoDup_Permutation; [apply firstOccurrences_spec..|].
      intros k. rewrite !(proj2 (firstOccurrences_spec _)). by rewrite Hsurv.
    + intros k. simpl Numeric.byCategory.
      rewrite !numeric_entries_get, !numeric_groups_get.
      pose proof (numeric_keyGroup_perm k _ _ Hsurv) as Hg.
      destruct (Numeric.keyGroup k (Numeric.filteredAttestations l query))
        as [|x g],
        (Numeric.keyGroup k (Numeric.filteredAttestations l' query))
        as [|y g'].
      * repeat split; constructor.
      * by apply Permutation_nil_cons in Hg.
      * symmetry in Hg. by apply Permutation_nil_cons in Hg.
      * repeat split. by constructor.
  - intros l l' query Hp.
    destruct (exact_report l query) as (Hget & Hov & Hdecay & Hrisk & Hsusp & Htotal).
    destruct (exact_report l' query)
      as (Hget' & Hov' & Hdecay' & Hrisk' & Hsusp' & Htotal').
    assert (weightedReputationOf (typed <$> l) query
            = weightedReputationOf (typed <$> l') query) as Hsame
      by (by apply permutation_invariance, fmap_Permutation).
    unfold sameReport.
    rewrite Hov, Hov', Hdecay, Hdecay', Hrisk, Hrisk', Hsusp, Hsusp',
      Htotal, Htotal', Hsame.
    repeat split. intros k. by rewrite Hget, Hget', Hsame.
Qed.

Lemma same_report_up_to_order_of_sums_witness :
  sameUpToOrder thirdLast thirdFirst None ∧
  sameReport
    (Numeric.weightedReputationOf
       [attQ "a" "x" 100; attQ "a" "x" 80; attQ "a" "y" 50] None)
    (Numeric.weightedReputationOf
       [attQ "a" "x" 80; attQ "a" "x" 100; attQ "a" "y" 50] None).
Proof.
  destruct same_report_up_to_order_of_sums as [Hany Hexact]. split.
  - apply Hany.
    apply (Permutation_app_comm
             [att64 "a" "x" 1; att64 "a" "y" 1]
             [att64 "a" "z" 1; att64 "a" "z" 0; att64 "a" "z" 0]).
  - apply Hexact. apply perm_swap.
Defined.

(** C10, as stated, fails in the arithmetic of the code: the mean of three
    scores 0.1 is 0.10000000000000002, above the three scores, and the mean
    of six scores 2^53 + 4 is 2^53 + 2, below them. *)
Lemma mean_leaves_range_in_binary64 :
  Numeric.byCategory (Numeric.weightedReputationOf threeTenths None)
    = [("a:x", 0x1.999999999999bp-4%float)] ∧
  ¬ withinRange (N := Numeric.binary64) le64 tenth tenth threeTenths None ∧
  Numeric.byCategory (Numeric.weightedReputationOf sixLarge None)
    = [("a:x", 0x1.0000000000001p+53%float)] ∧
  ¬ withinRange (N := Numeric.binary64) le64 large large sixLarge None.
Proof.
  split; [vm_compute; reflexivity|]. split; [|split; [vm_compute; reflexivity|]].
  - intros Hrange. unfold withinRange in Hrange. cbv zeta in Hrange.
    destruct Hrange as [Hentries _].
    + vm_compute. reflexivity.
    + repeat constructor.
    + destruct (Hentries "a:x" 0x1.999999999999bp-4%float) as [_ Hhi].
      * vm_compute. reflexivity.
      * vm_compute in Hhi. discriminate.
  - intros Hrange. unfold withinRange in Hrange. cbv zeta in Hrange.
    destruct Hrange as [Hentries _].
    + vm_compute. reflexivity.
    + repeat constructor.
    + destruct (Hentries "a:x" 0x1.0000000000001p+53%float) as [Hlo _].
      * vm_compute. reflexivity.
      * vm_compute in Hlo. discriminate.
Qed.

(** With the sums and the quotients taken exactly, the entries and
    [overall] stay in the range of the scores. *)
Lemma exact_within_range
    (attestations : list (Numeric.Attestation Numeric.exact))
    (query : option Query.t) (lo hi : Qc) :
  withinRange (N := Numeric.exact) Qcle lo hi attestations query.
Proof.
  unfold withinRange. cbv zeta. intros Hle Hscores.
  destruct (exact_report attestations query) as (Hget & Hoverall & _).
  set (report := Numeric.weightedReputationOf attestations query) in *.
  destruct (range_preservation (typed <$> attestations) query lo hi Hle)
    as [Hentries Hmean].
  { apply Forall_fmap. eapply Forall_impl; [exact Hscores|]. done. }
  split.
  - intros k v. rewrite Hget. apply Hentries.
  - intros Hne. rewrite Hoverall. apply Hmean. intros Hempty.
    destruct (Numeric.byCategory report) as [|[k v] entries]; [done|].
    specialize (Hget k). rewrite Hempty, lookup_empty in Hget.
    simpl in Hget. by rewrite decide_True in Hget.
Qed.

(** C10, amended.  In the arithmetic of the code (binary64), for a list of
    fewer than 2^53 attestations (an array has fewer than 2^32 elements),
    the claim holds of the range from 0 to [+Infinity]: when every score
    lies in it, so does every entry of [byCategory], and so does [overall].
    With the sums and the quotients taken exactly, it holds of every range:
    when every score of the list lies in [[lo, hi]], so does every entry of
    [byCategory], and so does [overall] when [byCategory] has an entry. *)
Theorem within_range :
  (∀ (attestations : list (Numeric.Attestation Numeric.binary64))
     (query : option Query.t),
     (Z.of_nat (length attestations) < 2 ^ 53)%Z →
     withinRange (N := Numeric.binary64) le64 0%float infinity
       attestations query) ∧
  (∀ (attestations : list (Numeric.Attestation Numeric.exact))
     (query : option Query.t) (lo hi : Qc),
     withinRange (N := Numeric.exact) Qcle lo hi attestations query).
Proof.
  split; [|apply exact_within_range].
  intros attestations query Hlength. unfold withinRange. cbv zeta.
  intros _ Hscores.
  destruct (nonnegative_in_binary64 attestations query Hlength)
    as [Hentries Hoverall].
  { eapply Forall_impl; [exact Hscores|]. intros a [Ha _]. exact Ha. }
  split.
  - intros k v Hv. pose proof (Hentries k v Hv) as Hlo.
    split; [exact Hlo | by apply le64_infinity].
  - intros _. split; [exact Hoverall | by apply le64_infinity].
Qed.

Lemma within_range_witness :
  (∀ k v,
     Numeric.getProperty k
       (Numeric.byCategory (Numeric.weightedReputationOf threeTenths None))
     = Some v → le64 0 v ∧ le64 v infinity) ∧
  (∀ k v,
     Numeric.getProperty k
       (Numeric.byCategory (Numeric.weightedReputationOf exactExample None))
     = Some v → (Qc_of_Z 20 ≤ v ≤ Qc_of_Z 100)%Qc) ∧
  (Qc_of_Z 20
   ≤ Numeric.overall (Numeric.weightedReputationOf exactExample None)
   ≤ Qc_of_Z 100)%Qc.
Proof.
  destruct within_range as [Hbinary64 Hexact]. split.
  - destruct (Hbinary64 threeTenths None) as [Hentries _].
    + vm_compute. reflexivity.
    + vm_compute. reflexivity.
    + repeat constructor; vm_compute; reflexivity.
    + exact Hentries.
  - destruct (Hexact exactExample None (Qc_of_Z 20) (Qc_of_Z 100))
      as [Hentries Hoverall].
    + by_evaluation.
    + repeat constructor; by_evaluation.
    + split; [exact Hentries|]. apply Hoverall. discriminate.
Defined.

(** ** The order of the entries and of the sums *)

(** In binary64 the mean of 97, 15.4 and 40.4 is 50.93333333333334 and the
    mean of the same scores taken twice is 50.93333333333333. *)
Lemma doubled_group_mean_in_binary64 :
  Numeric.byCategory (Numeric.weightedReputationOf fractional None)
  = [("a:x", 0x1.9777777777778p+5%float)] ∧
  Numeric.byCategory (Numeric.weightedReputationOf (fractional ++ fractional) None)
  = [("a:x", 0x1.9777777777777p+5%float)].
Proof. split; vm_compute; reflexivity. Qed.

(** X2: attestations are never deduplicated.  The count in the report is
    the number of identifiers the contract lists, repetitions included.
    Whatever the arithmetic, listing every attestation twice doubles
    [totalAttestations], the only input of the risk level, leaves the keys
    of [byCategory] and their order as they were, and puts under each key
    the scores of its group followed by the same scores again; the entry is
    the average of that doubled group, which in binary64 need not be the
    average of the group. *)
Theorem no_deduplication (query : option Query.t) :
  (∀ this agentId ids report this',
     tg_getAttestations (trustGraph this) agentId = Some ids →
     getWeightedReputation agentId query this = (Fulfilled report, this') →
     totalAttestations report = length ids) ∧
  (∀ (N : Numeric.Numbers) (attestations : list (Numeric.Attestation N)),
     let once := Numeric.weightedReputationOf attestations query in
     let twice := Numeric.weightedReputationOf (attestations ++ attestations) query in
     let groups :=
       Numeric.groups (Numeric.filteredAttestations attestations query) in
     let groups2 :=
       Numeric.groups
         (Numeric.filteredAttestations (attestations ++ attestations) query) in
     Numeric.totalAttestations twice = 2 * Numeric.totalAttestations once ∧
     (Numeric.byCategory twice).*1 = (Numeric.byCategory once).*1 ∧
     ∀ k,
       Numeric.getProperty k groups2
         = (λ scores, scores ++ scores) <$> Numeric.getProperty k groups ∧
       Numeric.getProperty k (Numeric.byCategory once)
         = Numeric.average <$> Numeric.getProperty k groups ∧
       Numeric.getProperty k (Numeric.byCategory twice)
         = Numeric.average <$> Numeric.getProperty k groups2).
Proof.
  split.
  - intros this agentId ids report this' Hids Hrun.
    destruct (getWeightedReputation_cases agentId query this)
      as [(resolved & (ids' & Hids' & Hall) & Heq)|[_ Heq]];
      rewrite Heq in Hrun; [|done].
    injection Hrun as <- _.
    assert (ids' = ids) as -> by congruence.
    simpl. symmetry. by apply Forall2_length in Hall.
  - intros N attestations. cbv zeta.
    rewrite numeric_filteredAttestations_app.
    set (surviving := Numeric.filteredAttestations attestations query).
    split; [simpl; rewrite length_app; lia|]. split.
    + simpl Numeric.byCategory.
      rewrite numeric_filteredAttestations_app. fold surviving.
      rewrite !numeric_keys_of_entries, <- !numeric_groups_keys.
      unfold Numeric.groups at 1. rewrite foldl_app.
      fold (Numeric.groups surviving).
      rewrite numeric_foldl_groupStep_keys, <- numeric_groups_keys.
      rewrite filter_not_in_nil; [apply app_nil_r | done].
    + intros k. simpl Numeric.byCategory.
      rewrite numeric_filteredAttestations_app. fold surviving.
      rewrite !numeric_entries_get, !numeric_groups_get, numeric_keyGroup_app.
      destruct (Numeric.keyGroup k surviving) as [|x g]; done.
Qed.

Lemma no_deduplication_witness :
  totalAttestations (weightedReputationOf specExample None)
  = length [""; "1"; "11"] ∧
  Numeric.getProperty "a:x"
    (Numeric.groups
       (Numeric.filteredAttestations (fractional ++ fractional) None))
  = Some ((Numeric.score <$> fractional) ++ (Numeric.score <$> fractional)).
Proof.
  destruct (no_deduplication None) as [Hcount Htwice].
  split.
  - apply (Hcount (ledgerOf specExample) 7%Z [""; "1"; "11"] _
             (ledgerOf specExample)); reflexivity.
  - destruct (Htwice Numeric.binary64 fractional) as (_ & _ & Hgroups).
    destruct (Hgroups "a:x") as (Hgroup & _ & _). exact Hgroup.
Defined.

(** X9: whatever the arithmetic, [byCategory] lists its keys in the order
    in which they first occur among the attestations that survive the
    query, each once; the entry of a key is the average of the scores of
    the surviving attestations with that key, taken in the order of the
    input ([Numeric.average] sums them from 0 in that order); and [overall]
    is computed from these averages in the order of the keys: their sum
    from 0 divided by their number, or 0 when there is none. *)
Theorem entries_in_order_of_first_occurrence {N : Numeric.Numbers}
    (attestations : list (Numeric.Attestation N)) (query : option Query.t) :
  let surviving := Numeric.filteredAttestations attestations query in
  let report := Numeric.weightedReputationOf attestations query in
  let keys := Numeric.firstOccurrences (Numeric.key <$> surviving) in
  let entry := λ k, Numeric.average (Numeric.keyGroup k surviving) in
  Numeric.byCategory report = (λ k, (k, entry k)) <$> keys ∧
  NoDup keys ∧
  (∀ k, k ∈ keys ↔ ∃ a, a ∈ surviving ∧ Numeric.key a = k) ∧
  Numeric.overall report
  = match entry <$> keys with
    | [] => Numeric.zero N
    | averages =>
        Numeric.quot N (foldl (Numeric.plus N) (Numeric.zero N) averages)
          (Numeric.ofLength N (length averages))
    end.
Proof.
  intros surviving report keys entry.
  assert (Numeric.byCategory report = (λ k, (k, entry k)) <$> keys) as Hentries
    by apply numeric_entries_of_keys.
  split; [done|]. split; [apply firstOccurrences_spec|]. split.
  { intros k. unfold keys. rewrite (proj2 (firstOccurrences_spec _)).
    rewrite list_elem_of_fmap. split; intros (a & H1 & H2); exists a; done. }
  change (Numeric.overall report)
    with (Numeric.overallOf (Numeric.allScores (Numeric.byCategory report))).
  rewrite Hentries. unfold Numeric.allScores.
  rewrite <- list_fmap_compose.
  change (snd ∘ (λ k, (k, entry k))) with entry.
  unfold Numeric.overallOf, Numeric.reduceSum.
  destruct (entry <$> keys) as [|x averages]; reflexivity.
Qed.

Lemma entries_in_order_of_first_occurrence_witness :
  Numeric.byCategory (Numeric.weightedReputationOf thirdFirst None)
  = [("a:z", Numeric.average (N := Numeric.binary64) [1; 0; 0]%float);
     ("a:x", Numeric.average (N := Numeric.binary64) [1%float]);
     ("a:y", Numeric.average (N := Numeric.binary64) [1%float])].
Proof.
  destruct (entries_in_order_of_first_occurrence thirdFirst None)
    as (Hentries & _).
  exact Hentries.
Defined.
